(** * ai_agent.py: the line editor of notes and the life cycle of tasks

    A shallow embedding of the parts of [ai_agent.py] that carry logic:
    the partial edit of a note ([edit_note], option "part"), the task
    commands ([normalize_status_on_read], [list_tasks], [view_task],
    [complete_task], [edit_task], [delete_task]) and the LLM wrapper
    ([llm_query]).  The two SQLite tables are finite maps from the primary
    key [id] to the row; console input is passed in as arguments, console
    output is the returned message. *)

From Stdlib Require Import ZArith Lia.
From Stdlib Require Import Ascii String.
From stdpp Require Import base option list strings gmap fin_maps.

Local Open Scope Z_scope.

(** ** Python strings, [splitlines], [join] and slices *)

Module Py.

(** A Python [str] is a sequence of Unicode code points. *)
Definition char := N.
Definition str := list char.

(** ASCII literals of the source, written as Rocq strings. *)
Definition lit (s : string) : str :=
  N_of_ascii <$> list_ascii_of_string s.
Arguments lit s%_string.

Definition LF : char := 10%N.
Definition CR : char := 13%N.
Definition DASH : char := 45%N.

(** The line boundaries of [str.splitlines]: LF, VT, FF, CR, FS, GS, RS,
    NEL (U+0085), LS (U+2028) and PS (U+2029). *)
Definition is_linebreak (c : char) : bool :=
  bool_decide (c ∈ [10; 11; 12; 13; 28; 29; 30; 133; 8232; 8233]%N).

(** [s.splitlines()]: [cur] is the line being read, last character first.
    "\r\n" is one boundary; no empty line is produced after a final
    boundary. *)
Fixpoint splitlines_from (cur : str) (s : str) : list str :=
  match s with
  | [] => match cur with [] => [] | _ => [rev cur] end
  | c :: s' =>
      if is_linebreak c then
        rev cur ::
          match s' with
          | c' :: s'' =>
              if bool_decide (c = CR) && bool_decide (c' = LF)
              then splitlines_from [] s''
              else splitlines_from [] s'
          | [] => splitlines_from [] s'
          end
      else splitlines_from (c :: cur) s'
  end.

Definition splitlines (s : str) : list str := splitlines_from [] s.

(** ["\n".join(l)] *)
Fixpoint join_lines (l : list str) : str :=
  match l with
  | [] => []
  | [x] => x
  | x :: l' => x ++ LF :: join_lines l'
  end.

(** The bound of a slice, as Python clips it: a negative bound counts
    from the end, and the result is kept inside [0, n]. *)
Definition clip (n k : Z) : nat :=
  Z.to_nat (if k <? 0 then Z.max 0 (k + n) else Z.min k n).

(** [l[:k]] and [l[k:]] *)
Definition slice_to {A} (l : list A) (k : Z) : list A :=
  take (clip (Z.of_nat (length l)) k) l.
Definition slice_from {A} (l : list A) (k : Z) : list A :=
  drop (clip (Z.of_nat (length l)) k) l.

(** ["-" in s] and [s.split("-", 1)] when it holds. *)
Definition has_dash (s : str) : bool := bool_decide (DASH ∈ s).

Fixpoint split_dash (s : str) : str * str :=
  match s with
  | [] => ([], [])
  | c :: s' =>
      if bool_decide (c = DASH) then ([], s')
      else let '(a, b) := split_dash s' in (c :: a, b)
  end.

(** Truth value of a string: [if s:] *)
Definition truthy (s : str) : bool :=
  match s with [] => false | _ => true end.

End Py.

Import Py.

(** ** Notes: the partial edit of [edit_note] *)

Module Notes.

(** What the branch prints when it returns without writing the note. *)
Inductive report :=
| BadRange          (* "Bad range." *)
| BadIndex          (* "Bad index." *)
| IndexOutOfRange.  (* "Index out of range." *)

(** [Updated new_lines]: the branch reached its UPDATE and stored
    ["\n".join(new_lines)]; [Rejected r]: it returned before any UPDATE. *)
Inductive outcome :=
| Updated (new_lines : list str)
| Rejected (r : report).

Definition failed (o : outcome) : bool :=
  match o with Updated _ => false | Rejected _ => true end.

(** The line sequence of the note after the command. *)
Definition lines_after (lines : list str) (o : outcome) : list str :=
  match o with Updated new_lines => new_lines | Rejected _ => lines end.

(** "replace N-M" once both numbers are read:
    [lines[:a_i] + new_chunk.splitlines() + lines[b_i+1:]]. *)
Definition splice (lines : list str) (a_i b_i : Z) (new_chunk : str) : list str :=
  slice_to lines a_i ++ splitlines new_chunk ++ slice_from lines (b_i + 1).

Definition replace_range (lines : list str) (a b : Z) (new_chunk : str) : outcome :=
  let a_i := a - 1 in
  let b_i := b - 1 in
  Updated (splice lines a_i b_i new_chunk).

(** "replace N" once the number is read. *)
Definition replace_line (lines : list str) (i : Z) (new_text : str) : outcome :=
  let idx := i - 1 in
  if (0 <=? idx) && (idx <? Z.of_nat (length lines))
  then Updated (<[Z.to_nat idx := new_text]> lines)
  else Updated (lines ++ [new_text]).

(** "delete N" once the number is read. *)
Definition delete_line (lines : list str) (n : Z) : outcome :=
  let idx := n - 1 in
  if (0 <=? idx) && (idx <? Z.of_nat (length lines))
  then Updated (delete (Z.to_nat idx) lines)
  else Rejected IndexOutOfRange.

(** "insert N" once the number is read; [new] are the lines typed
    before END. *)
Definition insert_before (lines : list str) (n : Z) (new : list str) : outcome :=
  let idx := n - 1 in
  let idx := if idx <? 0 then 0 else idx in
  let idx := if idx >? Z.of_nat (length lines) then Z.of_nat (length lines) else idx in
  Updated (slice_to lines idx ++ new ++ slice_from lines idx).

(** The "replace" command from the text after the word "replace".
    [int_] is Python's [int()], [None] when it raises; [new] are the
    lines typed before END in the range case, [new_text] the line typed
    in the single case. *)
Section Replace.
Variable int_ : str -> option Z.

Definition replace_cmd (lines : list str) (rng : str)
    (new : list str) (new_text : str) : outcome :=
  if has_dash rng then
    let '(a, b) := split_dash rng in
    match int_ a, int_ b with
    | Some a, Some b => replace_range lines a b (join_lines new)
    | _, _ => Rejected BadRange
    end
  else
    match int_ rng with
    | Some i => replace_line lines i new_text
    | None => Rejected BadIndex
    end.
End Replace.

End Notes.

(** ** Tasks: the table, normalization and the task commands *)

Module Tasks.

(** A [datetime]: the wall clock in microseconds since 0001-01-01, and
    for an aware value the offset of its zone from UTC, in microseconds.
    A naive value has [tzinfo = None]. *)
Record datetime := Datetime { wall : Z; tzinfo : option Z }.

#[global] Instance datetime_eq_dec : EqDecision datetime.
Proof. solve_decision. Defined.

(** [datetime.timezone.utc] *)
Definition utc : Z := 0.

(** [d.replace(tzinfo=tz)] *)
Definition replace_tzinfo (d : datetime) (tz : Z) : datetime :=
  Datetime (wall d) (Some tz).

(** The instant of an aware value on the UTC time line. *)
Definition instant (wall_clock offset : Z) : Z := wall_clock - offset.

(** [a < b]; comparing a naive with an aware value raises TypeError,
    which is [None] here. *)
Definition dt_lt (a b : datetime) : option bool :=
  match tzinfo a, tzinfo b with
  | None, None => Some (wall a <? wall b)
  | Some oa, Some ob => Some (instant (wall a) oa <? instant (wall b) ob)
  | _, _ => None
  end.

(** The instant a parsed deadline stands for: a value without a zone is
    read as UTC. *)
Definition deadline_instant (dl_dt : datetime) : Z :=
  instant (wall dl_dt) (default utc (tzinfo dl_dt)).

(** One reading of the machine clock: [datetime.datetime.utcnow()] and
    the local [datetime.datetime.now()], from which dateutil takes the
    fields that a date text leaves out. *)
Record clock := Clock { utcnow : datetime; localnow : datetime }.

(** Column [status]: the program writes and tests only these three. *)
Inductive status := Todo | Done | Missed.

#[global] Instance status_eq_dec : EqDecision status.
Proof. solve_decision. Defined.

(** A row of [tasks] without its key.  [created_at] and [updated_at]
    hold [utcnow().isoformat()], kept here as the value they render;
    [deadline] is the stored text, NULL being [None]. *)
Record task := Task {
  description : str;
  deadline : option str;
  status_of : status;
  created_at : datetime;
  updated_at : datetime
}.

(** The table [tasks], by primary key [id]. *)
Abbreviation tasks := (gmap Z task).

(** What a command prints. *)
Inductive message :=
| InvalidId                          (* "Invalid id." *)
| NotFound                           (* "Not found." *)
| NoTasks                            (* "No tasks." *)
| TaskLine (id : Z) (t : task)       (* one line of a listing *)
| TaskCard (id : Z) (t : task)       (* the card of view_task *)
| MarkedDone                         (* "Marked done." *)
| TaskDeleted                        (* "Deleted." *)
| CurrentDescription (d : str)       (* "Current description:" and the text *)
| DescriptionUpdated                 (* "Description updated." *)
| BadDate                            (* "Bad date. Skipping deadline edit." *)
| DeadlineUpdated.                   (* "Deadline updated." *)

(** UPDATE tasks SET status = 'missed', updated_at = ? WHERE id = ? *)
Definition set_missed (now : datetime) (t : task) : task :=
  Task (description t) (deadline t) Missed (created_at t) now.

(** UPDATE tasks SET status = 'done', updated_at = ? WHERE id = ? *)
Definition set_done (now : datetime) (t : task) : task :=
  Task (description t) (deadline t) Done (created_at t) now.

(** UPDATE tasks SET description = ?, updated_at = ? WHERE id = ? *)
Definition set_description (new : str) (now : datetime) (t : task) : task :=
  Task new (deadline t) (status_of t) (created_at t) now.

(** UPDATE tasks SET deadline = ?, updated_at = ? WHERE id = ? *)
Definition set_deadline (new_dl : option str) (now : datetime) (t : task) : task :=
  Task (description t) new_dl (status_of t) (created_at t) now.

(** SELECT id, deadline, status FROM tasks
    WHERE deadline IS NOT NULL AND status NOT IN ('done','missed') *)
Definition pending (r : Z * task) : option (Z * str) :=
  match deadline r.2 with
  | Some dl =>
      if bool_decide (status_of r.2 ∈ [Done; Missed]) then None else Some (r.1, dl)
  | None => None
  end.

Definition select_pending (conn : tasks) : list (Z * str) :=
  omap pending (map_to_list conn).

(** [complete_task]; [task_id] is [int(task_id)], [None] when it raises.
    The function does not call [normalize_status_on_read]. *)
Definition complete_task (c : clock) (task_id : option Z) (conn : tasks)
    : tasks * list message :=
  match task_id with
  | None => (conn, [InvalidId])
  | Some tid =>
      let now := utcnow c in
      match conn !! tid with
      | None => (conn, [NotFound])
      | Some _ => (alter (set_done now) tid conn, [MarkedDone])
      end
  end.

(** [delete_task] *)
Definition delete_task (task_id : option Z) (conn : tasks) : tasks * list message :=
  match task_id with
  | None => (conn, [InvalidId])
  | Some tid =>
      match conn !! tid with
      | None => (conn, [NotFound])
      | Some _ => (delete tid conn, [TaskDeleted])
      end
  end.

Section WithDateutil.
(** [dateutil.parser.parse]: the first argument is the local clock
    it reads for its default date; [None] when it raises. *)
Variable parse : datetime -> str -> option datetime.
(** [datetime.isoformat] *)
Variable isoformat : datetime -> str.

(** The body of the [try] in [normalize_status_on_read]:
    [Some true] when the UPDATE is reached, [None] when an exception
    is raised. *)
Definition overdue (c : clock) (dl : str) : option bool :=
  dl_dt ← parse (localnow c) dl;
  let dl_dt :=
    match tzinfo dl_dt with
    | None => replace_tzinfo dl_dt utc
    | Some _ => dl_dt
    end in
  let now_tz := replace_tzinfo (utcnow c) utc in
  dt_lt dl_dt now_tz.

(** One turn of the loop over the selected rows. *)
Definition normalize_row (c : clock) (conn : tasks) (r : Z * str) : tasks :=
  match overdue c r.2 with
  | Some true => alter (set_missed (utcnow c)) r.1 conn
  | Some false => conn
  | None => conn                    (* except Exception: continue *)
  end.

Definition normalize_status_on_read (c : clock) (conn : tasks) : tasks :=
  foldl (normalize_row c) conn (select_pending conn).

(** What one pass does to a single row. *)
Definition normalized (c : clock) (t : task) : task :=
  match deadline t with
  | Some dl =>
      if bool_decide (status_of t ∈ [Done; Missed]) then t
      else
        match overdue c dl with
        | Some true => set_missed (utcnow c) t
        | _ => t
        end
  | None => t
  end.

(** A task that has a deadline, is 'todo', and whose deadline is an
    instant strictly before the current one. *)
Definition past_due (c : clock) (t : task) : Prop :=
  ∃ dl dl_dt,
    deadline t = Some dl ∧ status_of t = Todo ∧
    parse (localnow c) dl = Some dl_dt ∧
    deadline_instant dl_dt < wall (utcnow c).

(** [list_tasks]: the rows printed, in the order of the table; the
    ORDER BY of the two queries is left out. *)
Definition list_tasks (c : clock) (show_all : bool) (conn : tasks)
    : tasks * list message :=
  let conn := normalize_status_on_read c conn in
  let rows :=
    if show_all then map_to_list conn
    else List.filter (λ r, bool_decide (status_of r.2 ≠ Done)) (map_to_list conn) in
  match rows with
  | [] => (conn, [NoTasks])
  | _ => (conn, (λ r, TaskLine r.1 r.2) <$> rows)
  end.

(** [view_task] *)
Definition view_task (c : clock) (task_id : option Z) (conn : tasks)
    : tasks * list message :=
  match task_id with
  | None => (conn, [InvalidId])
  | Some tid =>
      let conn := normalize_status_on_read c conn in
      match conn !! tid with
      | None => (conn, [NotFound])
      | Some r => (conn, [TaskCard tid r])
      end
  end.

(** The new deadline of [edit_task] from the stripped input [s] and
    the row [r] read at the start; the flag tells that the date was
    refused. *)
Definition new_deadline (c : clock) (s : str) (r : task) : option str * bool :=
  match s with
  | [] => (None, false)
  | _ =>
      match parse (localnow c) s with
      | Some dt =>
          let dt :=
            match tzinfo dt with
            | None => replace_tzinfo dt utc
            | Some _ => dt
            end in
          (Some (isoformat dt), false)
      | None => (r.(deadline), true)
      end
  end.

(** [edit_task].  [edit_desc] is [Some new] when the answer to
    "Edit description?" is y or yes, [edit_dl] is [Some s] when the
    answer to "Edit deadline?" is, [s] being the stripped input;
    [c1] and [c2] are the clock readings of the two steps.  The
    function does not call [normalize_status_on_read]. *)
Definition edit_task (c1 c2 : clock) (task_id : option Z)
    (edit_desc edit_dl : option str) (conn : tasks) : tasks * list message :=
  match task_id with
  | None => (conn, [InvalidId])
  | Some tid =>
      match conn !! tid with
      | None => (conn, [NotFound])
      | Some r =>
          let '(conn, out) :=
            match edit_desc with
            | Some new =>
                (alter (set_description new (utcnow c1)) tid conn,
                 [CurrentDescription (description r); DescriptionUpdated])
            | None => (conn, [CurrentDescription (description r)])
            end in
          match edit_dl with
          | Some s =>
              let '(new_dl, bad) := new_deadline c2 s r in
              (alter (set_deadline new_dl (utcnow c2)) tid conn,
               out ++ (if bad then [BadDate] else []) ++ [DeadlineUpdated])
          | None => (conn, out)
          end
      end
  end.

(** The operations of the life cycle on a stored task, one clock
    reading each. *)
Inductive lifecycle_op :=
| Complete (tid : Z)
| EditDescription (tid : Z) (new : str)
| EditDeadline (tid : Z) (s : str)
| Normalize.

Definition run_op (c : clock) (op : lifecycle_op) (conn : tasks) : tasks :=
  match op with
  | Complete tid => (complete_task c (Some tid) conn).1
  | EditDescription tid new => (edit_task c c (Some tid) (Some new) None conn).1
  | EditDeadline tid s => (edit_task c c (Some tid) None (Some s) conn).1
  | Normalize => normalize_status_on_read c conn
  end.

(** Successive normalization passes, one clock reading each. *)
Definition normalize_runs (cs : list clock) (conn : tasks) : tasks :=
  foldl (λ conn c, normalize_status_on_read c conn) conn cs.

End WithDateutil.

End Tasks.

(** ** The LLM wrapper *)

Module Gateway.

Definition OPENAI_KEY : str := lit "".

(** The text returned when no call is made or the call fails. *)
Definition fallback : str :=
  [1087; 1088; 1080; 1074; 1077; 1090]%N ++ lit "! " ++ [1103]%N ++ lit " "
    ++ [1087; 1086; 1076; 1082; 1083; 1102; 1095; 1077; 1085]%N
    ++ lit ", but no money no honey! :)".

Inductive role := System | User.

Section WithOpenAI.
Context {exn client response : Type}.

(** The module [openai] as far as [llm_query] uses it.  A call
    returns [inl e] when it raises [e], an instance of Exception. *)
Record openai_module := OpenaiModule {
  (* openai.OpenAI(api_key=key) *)
  OpenAI : str -> exn + client;
  (* client.chat.completions.create(model=..., messages=...,
     temperature=0.3, max_tokens=800) *)
  create : client -> str -> list (role * str) -> exn + response;
  (* resp.choices[0].message.content.strip() *)
  content_strip : response -> exn + str
}.

(** [llm_query] for a given value of the global [OPENAI_KEY];
    [openai] is [None] when the import at the top of the file failed.
    The result is [inl e] when the function raises [e]. *)
Definition llm_query_with (key : str) (openai : option openai_module)
    (user_prompt : str) (system_prompt : option str) (model : str) : exn + str :=
  match openai with
  | None => inr fallback
  | Some api =>
      if negb (truthy key) then inr fallback
      else
        match OpenAI api key with
        | inl e => inl e                      (* before the try *)
        | inr client =>
            let messages :=
              match system_prompt with
              | Some sp => if truthy sp then [(System, sp)] else []
              | None => []
              end ++ [(User, user_prompt)] in
            match create api client model messages with
            | inr resp =>
                match content_strip api resp with
                | inr out => inr out
                | inl _ => inr fallback       (* except Exception *)
                end
            | inl _ => inr fallback           (* except Exception *)
            end
        end
  end.

Definition llm_query := llm_query_with OPENAI_KEY.

End WithOpenAI.

End Gateway.

Import Notes Tasks Gateway.

(** ** Further operations: re-reading a note, append, llm-refactor,
    [create_task] *)

(** A text without line boundary. *)
Definition clean (s : str) : bool :=
  forallb (λ c, negb (is_linebreak c)) s.

(** What the next partial edit reads once [new_lines] were stored:
    ["\n".join(new_lines)] at the UPDATE, [content.splitlines()] at the
    start of [edit_note]. *)
Definition reopen (new_lines : list str) : list str :=
  splitlines (join_lines new_lines).

(** The lines without one empty last line. *)
Definition drop_empty_last (l : list str) : list str :=
  match last l with
  | Some [] => removelast l
  | _ => l
  end.

(** "append": [content + ("\n" if content and new else "") + "\n".join(new)];
    [new] are the lines typed before END. *)
Definition append_content (content : str) (new : list str) : str :=
  content
    ++ (if truthy content && (match new with [] => false | _ => true end)
        then [LF] else [])
    ++ join_lines new.

(** [l[a:b]] *)
Definition slice_between {A} (l : list A) (a b : Z) : list A :=
  let n := Z.of_nat (length l) in
  take (clip n b - clip n a)%nat (drop (clip n a) l).



(** The default of the parameter [model]. *)
Definition DEFAULT_MODEL : str := lit "gpt-4o-mini".

Definition PROMPT_WHOLE (content : str) : str :=
  lit "Refactor or improve this note content for clarity and conciseness."
    ++ [LF; LF] ++ lit "Content:" ++ [LF] ++ content ++ [LF; LF]
    ++ lit "Provide the improved version only.".

Definition SYSTEM_WHOLE : str :=
  lit "You are an assistant that rewrites notes to be clear and concise.".

Definition PROMPT_RANGE (selection : str) : str :=
  lit "Refactor or improve the following selection of the note for clarity and conciseness. "
    ++ lit "Return only the improved selection." ++ [LF; LF] ++ selection.

Definition SYSTEM_RANGE : str :=
  lit "You are an assistant that rewrites snippets for clarity.".


(** What an "llm-refactor" does to the note. *)
Inductive refactor_report :=
| ContentReplaced (new_content : str)   (* the UPDATE ran with this content *)
| NothingWritten                        (* the answer was empty: no UPDATE *)
| BadInput.                             (* "Bad input." and no UPDATE *)

Section Refactor.
Context {exn client response : Type}.
Variable openai : option (@openai_module exn client response).

(** Scope "whole".  [inl e]: the exception [e] leaves [edit_note]. *)
Definition refactor_whole (content : str) : exn + refactor_report :=
  match llm_query openai (PROMPT_WHOLE content) (Some SYSTEM_WHOLE) DEFAULT_MODEL with
  | inl e => inl e
  | inr out => inr (if truthy out then ContentReplaced out else NothingWritten)
  end.

(** Scope "lines N-M" once both numbers are read. *)
Definition refactor_range (lines : list str) (a b : Z) : exn + refactor_report :=
  let a_i := a - 1 in
  let b_i := b - 1 in
  let selection := join_lines (slice_between lines a_i (b_i + 1)) in
  match llm_query openai (PROMPT_RANGE selection) (Some SYSTEM_RANGE) DEFAULT_MODEL with
  | inl e => inl e
  | inr out =>
      inr (if truthy out
           then ContentReplaced
                  (join_lines (slice_to lines a_i ++ splitlines out
                                 ++ slice_from lines (b_i + 1)))
           else NothingWritten)
  end.


End Refactor.

(** What [create_task] does. *)
Inductive create_report :=
| CreateCancelled               (* "Empty description, cancelled." *)
| CreateEOF                     (* the input ended inside the deadline loop *)
| TaskCreated (conn : tasks).   (* "Task created." *)

Section CreateTask.
Variable parse : datetime → str → option datetime.
Variable isoformat : datetime → str.

(** The loop that asks for the deadline: each attempt is the stripped
    input with the clock reading at which it is parsed; a refused text
    gives the next prompt. *)
Fixpoint read_deadline (attempts : list (clock * str)) : option str :=
  match attempts with
  | [] => None
  | (c, s) :: attempts' =>
      match parse (localnow c) s with
      | Some dt =>
          let dt :=
            match tzinfo dt with
            | None => replace_tzinfo dt utc
            | Some _ => dt
            end in
          Some (isoformat dt)
      | None => read_deadline attempts'
      end
  end.

(** [create_task].  [desc] is the stripped description, [wants] tells
    that the answer to the deadline question is y or yes, [new_id] is
    the key SQLite gives the new row. *)
Definition create_task (desc : str) (wants : bool) (attempts : list (clock * str))
    (c : clock) (new_id : Z) (conn : tasks) : create_report :=
  if negb (truthy desc) then CreateCancelled
  else
    let row deadline :=
      let now := utcnow c in
      TaskCreated (<[new_id := Task desc deadline Todo now now]> conn) in
    if wants then
      match read_deadline attempts with
      | Some deadline => row (Some deadline)
      | None => CreateEOF
      end
    else row None.

End CreateTask.

(** ** Typed blocks, [create_note] and the whole edit *)

(** [str.isspace] on one character: the characters that [strip] takes
    off. *)
Definition isspace (ch : char) : bool :=
  bool_decide (ch ∈ [9; 10; 11; 12; 13; 28; 29; 30; 31; 32; 133; 160; 5760;
                     8232; 8233; 8239; 8287; 12288]%N)
  || ((8192 <=? ch) && (ch <=? 8202))%N.

Fixpoint lstrip (s : str) : str :=
  match s with
  | [] => []
  | ch :: s' => if isspace ch then lstrip s' else s
  end.

Definition rstrip (s : str) : str := rev (lstrip (rev s)).

(** [s.strip()] *)
Definition strip (s : str) : str := rstrip (lstrip s).

Definition END : str := lit "END".

(** The loop [while True: line = input(); if line.strip() == "END": break;
    lines.append(line)] on the lines still to come from the console: the
    lines read and the input left, [None] when the input ends first and
    [input()] raises EOFError. *)
Fixpoint read_until_END (inputs : list str) : option (list str * list str) :=
  match inputs with
  | [] => None
  | line :: inputs' =>
      if bool_decide (strip line = END) then Some ([], inputs')
      else
        match read_until_END inputs' with
        | Some (lines, rest) => Some (line :: lines, rest)
        | None => None
        end
  end.

(** A row of [notes] without its key. *)
Record note := Note {
  note_title : str;
  note_content : str;
  note_created_at : datetime;
  note_updated_at : datetime
}.

(** [create_note] on the console input to come; [new_id] is the key
    SQLite gives the new row.  [None]: EOFError. *)
Definition create_note (inputs : list str) (c : clock) (new_id : Z)
    (conn : gmap Z note) : option (gmap Z note) :=
  match inputs with
  | [] => None
  | first :: inputs' =>
      let title := strip first in
      match read_until_END inputs' with
      | None => None
      | Some (lines, _) =>
          let content := strip (join_lines lines) in
          let now := utcnow c in
          Some (<[new_id := Note title content now now]> conn)
      end
  end.

(** UPDATE notes SET content = ?, updated_at = ? WHERE id = ? *)
Definition set_content (new_content : str) (now : datetime) (r : note) : note :=
  Note (note_title r) new_content (note_created_at r) now.

(** [edit_note] with the choice "whole", for a stored note [nid].
    [None]: EOFError. *)
Definition edit_note_whole (inputs : list str) (c : clock) (nid : Z)
    (conn : gmap Z note) : option (gmap Z note) :=
  match read_until_END inputs with
  | None => None
  | Some (new_lines, _) =>
      let new_content := strip (join_lines new_lines) in
      let now := utcnow c in
      Some (alter (set_content new_content now) nid conn)
  end.

(** ** Sample data *)

Definition abc : list str := [lit "a"; lit "b"; lit "c"].

Definition XYZ : str := lit "X" ++ LF :: lit "Y" ++ LF :: lit "Z".

(** 2019-12-01 09:00, 2020-01-01, 2026-11-03 12:00 and 2030-01-01, in
    microseconds since 0001-01-01. *)
Definition us_2019 : Z := 63710787600000000.
Definition us_2020 : Z := 63713433600000000.
Definition us_2026 : Z := 63929304000000000.
Definition us_2030 : Z := 64029052800000000.

Definition iso_2020 : str := lit "2020-01-01T00:00:00+00:00".
Definition iso_2030 : str := lit "2030-01-01T00:00:00+00:00".

(** The date texts of the samples and the values dateutil reads them as. *)
Definition sample_dates : list (str * datetime) :=
  [ (iso_2020, Datetime us_2020 (Some utc));
    (iso_2030, Datetime us_2030 (Some utc));
    (lit "2030-01-01", Datetime us_2030 None) ].

(** The parser and [isoformat] on the sample dates; any other text is
    refused, any other value rendered as the empty text. *)
Definition parse_sample (_ : datetime) (s : str) : option datetime :=
  snd <$> List.find (λ p, bool_decide (p.1 = s)) sample_dates.

Definition isoformat_sample (d : datetime) : str :=
  if bool_decide (d = Datetime us_2020 (Some utc)) then iso_2020
  else if bool_decide (d = Datetime us_2030 (Some utc)) then iso_2030
  else [].

Definition clock_2026 : clock :=
  Clock (Datetime us_2026 None) (Datetime us_2026 None).

Definition created_2019 : datetime := Datetime us_2019 None.

(** A task created in 2019 with deadline 2020-01-01, still 'todo'. *)
Definition rent_task : task :=
  Task (lit "pay rent") (Some iso_2020) Todo created_2019 created_2019.

(** The same task once completed. *)
Definition rent_done : task :=
  Task (lit "pay rent") (Some iso_2020) Done created_2019 created_2019.

(** A 'todo' task whose stored deadline is not a date. *)
Definition odd_task : task :=
  Task (lit "call back") (Some (lit "soon")) Todo created_2019 created_2019.

Definition rent_table : tasks := {[ 1 := rent_task ]}.
Definition done_table : tasks := {[ 1 := rent_done ]}.
Definition odd_table : tasks := {[ 1 := odd_task ]}.

(** [int()] on a plain run of ASCII digits; any other text is refused. *)
Definition digit (ch : char) : option Z :=
  if (48 <=? ch)%N && (ch <=? 57)%N then Some (Z.of_N ch - 48) else None.

Fixpoint digits_value (acc : Z) (s : str) : option Z :=
  match s with
  | [] => Some acc
  | ch :: s' => d ← digit ch; digits_value (10 * acc + d) s'
  end.

Definition int_sample (s : str) : option Z :=
  match s with
  | [] => None
  | _ => digits_value 0 s
  end.


(** A module [openai] in which every call raises. *)
Definition raising_openai : @openai_module unit unit unit :=
  OpenaiModule (λ _, inl tt) (λ _ _ _, inl tt) (λ _, inl tt).

(** The console input of a "notes create": the title, two lines, the
    END line. *)
Definition shopping_inputs : list str :=
  [lit " shopping "; lit "milk"; lit "eggs"; lit " END "].

Definition shopping_note : note :=
  Note (lit "shopping") (lit "milk" ++ LF :: lit "eggs")
    (utcnow clock_2026) (utcnow clock_2026).

(** Two answers to the deadline prompt: a text that is no date, then
    2020-01-01. *)
Definition two_attempts : list (clock * str) :=
  [(clock_2026, lit "soon"); (clock_2026, iso_2020)].

Example splitlines_block :
  splitlines (lit "X" ++ LF :: lit "Y" ++ LF :: lit "Z") = [lit "X"; lit "Y"; lit "Z"].
Proof. reflexivity. Qed.

Example splitlines_crlf :
  splitlines (lit "a" ++ CR :: LF :: LF :: lit "b" ++ [LF]) = [lit "a"; []; lit "b"].
Proof. reflexivity. Qed.

Example scenario_A : replace_line abc 2 (lit "B") = Updated [lit "a"; lit "B"; lit "c"].
Proof. reflexivity. Qed.

Example scenario_C : insert_before [lit "a"] 1 [lit "x"] = Updated [lit "x"; lit "a"].
Proof. reflexivity. Qed.

Example replace_zero :
  replace_line abc 0 (lit "B") = Updated [lit "a"; lit "b"; lit "c"; lit "B"].
Proof. reflexivity. Qed.

Example replace_range_32 :
  replace_range abc 3 2 (lit "X") = Updated [lit "a"; lit "b"; lit "X"; lit "c"].
Proof. reflexivity. Qed.

Example replace_range_02 :
  replace_range abc 0 2 (lit "X") = Updated [lit "a"; lit "b"; lit "X"; lit "c"].
Proof. reflexivity. Qed.

Example replace_range_57 :
  replace_range abc 5 7 (lit "X") = Updated [lit "a"; lit "b"; lit "c"; lit "X"].
Proof. reflexivity. Qed.

(** ** The line editor *)

Section LineEditor.
Implicit Types (lines : list str) (i a b : Z) (text block : str).

Lemma clip_inside n k : 0 ≤ k ≤ n → clip n k = Z.to_nat k.
Proof.
  intros Hk. unfold clip.
  destruct (Z.ltb_spec k 0); [lia|]. f_equal. lia.
Qed.

Lemma replace_line_inside lines i text :
  1 ≤ i ≤ Z.of_nat (length lines) →
  replace_line lines i text = Updated (<[Z.to_nat (i - 1) := text]> lines).
Proof.
  intros Hi. unfold replace_line.
  destruct (Z.leb_spec 0 (i - 1)); [|lia].
  destruct (Z.ltb_spec (i - 1) (Z.of_nat (length lines))); [done|lia].
Qed.

Lemma replace_line_outside lines i text :
  i < 1 ∨ Z.of_nat (length lines) < i →
  replace_line lines i text = Updated (lines ++ [text]).
Proof.
  intros Hi. unfold replace_line.
  destruct (Z.leb_spec 0 (i - 1)); [|done].
  destruct (Z.ltb_spec (i - 1) (Z.of_nat (length lines))); [lia|done].
Qed.

(** C8. For 1 ≤ i ≤ len(L), "replace i" succeeds, and the new line
    sequence has the length of L, holds the new text at position i and
    agrees with L at every other position. *)
Theorem replace_line_valid_index lines i text :
  1 ≤ i ≤ Z.of_nat (length lines) →
  ∃ new_lines,
    replace_line lines i text = Updated new_lines ∧
    length new_lines = length lines ∧
    new_lines !! Z.to_nat (i - 1) = Some text ∧
    ∀ j : nat, j ≠ Z.to_nat (i - 1) → new_lines !! j = lines !! j.
Proof.
  intros Hi. eexists. split; [by apply replace_line_inside|].
  split; [by rewrite length_insert|]. split.
  - apply list_lookup_insert_eq. lia.
  - intros j Hj. by apply list_lookup_insert_ne.
Qed.

(** C2, as amended. For every i < 1 and every i > len(lines),
    "replace i" succeeds and appends the text as a new last line, so the
    result has len(lines)+1 lines; no index is refused as out of range. *)
Theorem replace_line_out_of_range_appends lines i text :
  i < 1 ∨ Z.of_nat (length lines) < i →
  replace_line lines i text = Updated (lines ++ [text]) ∧
  length (lines ++ [text]) = S (length lines) ∧
  last (lines ++ [text]) = Some text.
Proof.
  intros Hi. split; [by apply replace_line_outside|].
  split; [rewrite length_app; simpl; lia|]. by rewrite last_snoc.
Qed.

(** X6. A typed negative number never reaches "replace N": its dash
    sends the command to the range case, where the empty text before the
    dash is not a number, and the answer is "Bad range.". *)
Lemma replace_cmd_leading_dash (int_ : str → option Z) lines rest new text :
  int_ [] = None →
  replace_cmd int_ lines (DASH :: rest) new text = Rejected BadRange.
Proof.
  intros Hint. unfold replace_cmd, has_dash.
  rewrite bool_decide_eq_true_2 by (apply elem_of_cons; by left).
  simpl. by rewrite Hint.
Qed.

Lemma splice_inside lines a b block :
  1 ≤ a → a ≤ b → b ≤ Z.of_nat (length lines) →
  splice lines (a - 1) (b - 1) block =
    take (Z.to_nat (a - 1)) lines ++ splitlines block ++ drop (Z.to_nat b) lines.
Proof.
  intros Ha Hab Hb. unfold splice, slice_to, slice_from.
  rewrite !clip_inside by lia. do 3 f_equal. lia.
Qed.

(** C3, as amended. With 1 ≤ a ≤ b ≤ len(lines), "replace a-b" keeps the
    a-1 lines before the span and the lines after line b, and puts the
    lines of the block between them; on ["a","b","c"], "replace 1-2"
    with "X\nY\nZ" gives ["X","Y","Z","c"].  For any other a and b the
    command does not fail either: it stores the splice
    lines[:a-1] + block.splitlines() + lines[b:] of Python's slices. *)
Theorem replace_range_splices :
  (∀ lines a b block,
      1 ≤ a → a ≤ b → b ≤ Z.of_nat (length lines) →
      replace_range lines a b block =
        Updated (take (Z.to_nat (a - 1)) lines ++ splitlines block
                   ++ drop (Z.to_nat b) lines)) ∧
  replace_range abc 1 2 XYZ = Updated [lit "X"; lit "Y"; lit "Z"; lit "c"] ∧
  (∀ lines a b block,
      failed (replace_range lines a b block) = false ∧
      lines_after lines (replace_range lines a b block) =
        slice_to lines (a - 1) ++ splitlines block ++ slice_from lines b).
Proof.
  split; [|split].
  - intros lines a b block Ha Hab Hb. unfold replace_range.
    by rewrite splice_inside.
  - reflexivity.
  - intros lines a b block. split; [done|].
    simpl. unfold splice. by replace (b - 1 + 1) with b by lia.
Qed.

End LineEditor.

(** C8 at line 2 of three. *)
Lemma replace_line_valid_index_abc :
  ∃ new_lines,
    replace_line abc 2 (lit "B") = Updated new_lines ∧
    length new_lines = length abc ∧
    new_lines !! Z.to_nat (2 - 1) = Some (lit "B") ∧
    ∀ j : nat, j ≠ Z.to_nat (2 - 1) → new_lines !! j = abc !! j.
Proof. apply (replace_line_valid_index abc 2 (lit "B")). simpl. lia. Defined.

(** C2 at line 0 of three. *)
Lemma replace_line_out_of_range_appends_abc :
  replace_line abc 0 (lit "B") = Updated (abc ++ [lit "B"]) ∧
  length (abc ++ [lit "B"]) = S (length abc) ∧
  last (abc ++ [lit "B"]) = Some (lit "B").
Proof. apply (replace_line_out_of_range_appends abc 0 (lit "B")). left. lia. Defined.

(** "replace 0" is not refused: the text becomes the fourth line. *)
Lemma replace_line_zero_not_refused :
  replace_line abc 0 (lit "B") = Updated [lit "a"; lit "b"; lit "c"; lit "B"] ∧
  ¬ (∀ lines i text,
        i < 1 →
        replace_line lines i text = Rejected IndexOutOfRange ∧
        lines_after lines (replace_line lines i text) = lines).
Proof.
  split; [reflexivity|].
  intros H. destruct (H abc 0 (lit "B")) as [H1 _]; [lia|]. discriminate H1.
Qed.

(** "replace 3-2" is not refused: the block is put before line 3. *)
Lemma replace_range_reversed_not_refused :
  replace_range abc 3 2 (lit "X") = Updated [lit "a"; lit "b"; lit "X"; lit "c"] ∧
  ¬ (∀ lines a b block,
        ¬ (1 ≤ a ∧ a ≤ b ∧ b ≤ Z.of_nat (length lines)) →
        replace_range lines a b block = Rejected IndexOutOfRange ∧
        lines_after lines (replace_range lines a b block) = lines).
Proof.
  split; [reflexivity|].
  intros H. destruct (H abc 3 2 (lit "X")) as [H1 _]; [lia|]. discriminate H1.
Qed.

(** C3 on the sample note, lines 1 to 2. *)
Lemma replace_range_splices_abc :
  replace_range abc 1 2 XYZ =
    Updated (take (Z.to_nat (1 - 1)) abc ++ splitlines XYZ ++ drop (Z.to_nat 2) abc).
Proof. apply (proj1 replace_range_splices abc 1 2 XYZ); simpl; lia. Defined.

(** ** Normalization *)

Section Normalization.
Variable parse : datetime → str → option datetime.
Implicit Types (c : clock) (conn : tasks) (t : task) (k : Z) (dl : str).

Lemma normalize_row_lookup_ne c conn (r : Z * str) k :
  r.1 ≠ k → normalize_row parse c conn r !! k = conn !! k.
Proof.
  intros Hne. unfold normalize_row.
  destruct (overdue parse c r.2) as [[]|]; [|done..].
  by rewrite lookup_alter_ne.
Qed.

Lemma normalize_row_lookup_eq c conn k dl :
  normalize_row parse c conn (k, dl) !! k =
    (λ t, match overdue parse c dl with
          | Some true => set_missed (utcnow c) t
          | _ => t
          end) <$> conn !! k.
Proof.
  unfold normalize_row; simpl.
  destruct (overdue parse c dl) as [[]|].
  - by rewrite lookup_alter_eq.
  - by destruct (conn !! k).
  - by destruct (conn !! k).
Qed.

(** The loop leaves alone the rows that were not selected. *)
Lemma loop_lookup_notin c (rows : list (Z * str)) conn k :
  k ∉ rows.*1 → foldl (normalize_row parse c) conn rows !! k = conn !! k.
Proof.
  revert conn. induction rows as [|r rows IH]; intros conn Hk; [done|].
  rewrite fmap_cons in Hk. apply not_elem_of_cons in Hk as [Hne Hk].
  simpl. rewrite IH by done. by apply normalize_row_lookup_ne.
Qed.

(** A selected row is touched by its own turn of the loop only. *)
Lemma loop_lookup_in c (rows : list (Z * str)) conn k dl :
  NoDup rows.*1 → (k, dl) ∈ rows →
  foldl (normalize_row parse c) conn rows !! k =
    normalize_row parse c conn (k, dl) !! k.
Proof.
  revert conn. induction rows as [|r rows IH]; intros conn Hnd Hin.
  { by apply elem_of_nil in Hin. }
  rewrite fmap_cons in Hnd. apply NoDup_cons in Hnd as [Hr Hnd].
  apply elem_of_cons in Hin as [<-|Hin]; simpl.
  - by rewrite loop_lookup_notin.
  - assert (r.1 ≠ k) as Hne.
    { intros <-. apply Hr. apply list_elem_of_fmap. by exists (r.1, dl). }
    rewrite IH by done. rewrite !normalize_row_lookup_eq.
    by rewrite normalize_row_lookup_ne.
Qed.

Lemma closed_status (st : status) : st ∈ [Done; Missed] ↔ st ≠ Todo.
Proof.
  rewrite !elem_of_cons, elem_of_nil. destruct st; split; intros H; try done.
  - by destruct H as [?|[?|?]].
  - by left.
  - right. by left.
Qed.

Lemma pending_Some (r : Z * task) k dl :
  pending r = Some (k, dl) ↔
  r.1 = k ∧ deadline r.2 = Some dl ∧ status_of r.2 = Todo.
Proof.
  unfold pending. destruct r as [k' t]; simpl.
  destruct (deadline t) as [dl'|].
  - case_bool_decide as Hst; rewrite closed_status in Hst.
    + split; [done|]. by intros (_ & _ & Hs).
    + split.
      * intros [= <- <-]. split_and!; [done..|].
        destruct (status_of t); [done|by destruct Hst..].
      * by intros (-> & [= ->] & _).
  - split; [done|]. by intros (_ & ? & _).
Qed.

Lemma elem_of_select_pending conn k dl :
  (k, dl) ∈ select_pending conn ↔
  ∃ t, conn !! k = Some t ∧ deadline t = Some dl ∧ status_of t = Todo.
Proof.
  unfold select_pending. rewrite list_elem_of_omap. split.
  - intros ([k' t] & Hin & Hp). apply pending_Some in Hp as (<- & ? & ?).
    apply elem_of_map_to_list in Hin. by exists t.
  - intros (t & Hk & ? & ?). exists (k, t). split.
    + by apply elem_of_map_to_list.
    + by apply pending_Some.
Qed.

Lemma NoDup_select_pending conn : NoDup (select_pending conn).*1.
Proof.
  unfold select_pending.
  pose proof (NoDup_fst_map_to_list conn) as Hnd.
  induction (map_to_list conn) as [|r rows IH]; [constructor|].
  rewrite fmap_cons in Hnd. apply NoDup_cons in Hnd as [Hr Hnd].
  simpl. destruct (pending r) as [[k dl]|] eqn:Hp; [|by apply IH].
  rewrite fmap_cons. apply NoDup_cons. split; [|by apply IH].
  apply pending_Some in Hp as (<- & _). simpl.
  intros Hin. apply Hr.
  apply list_elem_of_fmap in Hin as ([k' dl'] & -> & Hin).
  apply list_elem_of_omap in Hin as (r' & Hin & Hp').
  apply pending_Some in Hp' as (<- & _).
  apply list_elem_of_fmap. by exists r'.
Qed.

(** The pass row by row: what the loop of UPDATEs leaves at key [k] is
    [normalized] of what was there. *)
Lemma normalize_lookup c conn k :
  normalize_status_on_read parse c conn !! k = normalized parse c <$> conn !! k.
Proof.
  unfold normalize_status_on_read.
  destruct (conn !! k) as [t|] eqn:Hk; simpl.
  - destruct (deadline t) as [dl|] eqn:Hdl.
    + destruct (decide (status_of t = Todo)) as [Hst|Hst].
      * rewrite (loop_lookup_in c _ conn k dl).
        -- rewrite normalize_row_lookup_eq, Hk. simpl. unfold normalized.
           rewrite Hdl. rewrite bool_decide_eq_false_2; [done|].
           rewrite closed_status. by intros [].
        -- apply NoDup_select_pending.
        -- apply elem_of_select_pending. by exists t.
      * rewrite loop_lookup_notin.
        -- rewrite Hk. unfold normalized. rewrite Hdl.
           rewrite bool_decide_eq_true_2; [done|]. by apply closed_status.
        -- intros Hin. apply list_elem_of_fmap in Hin as ([k' dl'] & -> & Hin).
           apply elem_of_select_pending in Hin as (t' & Hk' & _ & Hst').
           simpl in *. congruence.
    + rewrite loop_lookup_notin.
      * rewrite Hk. unfold normalized. by rewrite Hdl.
      * intros Hin. apply list_elem_of_fmap in Hin as ([k' dl'] & -> & Hin).
        apply elem_of_select_pending in Hin as (t' & Hk' & Hdl' & _).
        simpl in *. congruence.
  - rewrite loop_lookup_notin; [done|].
    intros Hin. apply list_elem_of_fmap in Hin as ([k' dl'] & -> & Hin).
    apply elem_of_select_pending in Hin as (t' & Hk' & _).
    simpl in *. congruence.
Qed.

Lemma normalize_fmap c conn :
  normalize_status_on_read parse c conn = normalized parse c <$> conn.
Proof. apply map_eq. intros k. by rewrite normalize_lookup, lookup_fmap. Qed.

(** The code's test, with its zone arithmetic, is the comparison of the
    two instants. *)
Lemma overdue_true c dl :
  overdue parse c dl = Some true ↔
  ∃ dl_dt, parse (localnow c) dl = Some dl_dt ∧
           deadline_instant dl_dt < wall (utcnow c).
Proof.
  unfold overdue, deadline_instant.
  destruct (parse (localnow c) dl) as [dl_dt|]; simpl;
    [|split; [done|by intros (? & ? & _)]].
  assert (∀ x y : Z, Some (x <? y) = Some true ↔ x < y) as Hlt.
  { intros x y. rewrite <- Z.ltb_lt. split; [by intros [= ->]|by intros ->]. }
  destruct dl_dt as [w [o|]]; unfold dt_lt, instant, utc; simpl;
    rewrite Hlt; split.
  - intros H. eexists; split; [done|]. simpl. lia.
  - intros (? & [= <-] & H). simpl in H. lia.
  - intros H. eexists; split; [done|]. simpl. lia.
  - intros (? & [= <-] & H). simpl in H. lia.
Qed.

Lemma normalized_past_due c t :
  past_due parse c t → normalized parse c t = set_missed (utcnow c) t.
Proof.
  intros (dl & dl_dt & Hdl & Hst & Hp & Hlt). unfold normalized.
  rewrite Hdl, Hst. rewrite bool_decide_eq_false_2.
  - assert (overdue parse c dl = Some true) as -> by (apply overdue_true; eauto).
    done.
  - rewrite closed_status. by intros [].
Qed.

Lemma normalized_not_past_due c t :
  ¬ past_due parse c t → normalized parse c t = t.
Proof.
  intros Hn. unfold normalized.
  destruct (deadline t) as [dl|] eqn:Hdl; [|done].
  case_bool_decide as Hst; [done|].
  destruct (overdue parse c dl) as [[]|] eqn:Hov; [|done..].
  exfalso. apply Hn. apply overdue_true in Hov as (dl_dt & ? & ?).
  exists dl, dl_dt. split_and!; [done| |done..].
  rewrite closed_status in Hst. by destruct (status_of t); [|destruct Hst..].
Qed.

Lemma past_due_dec c t : past_due parse c t ∨ ¬ past_due parse c t.
Proof.
  destruct (deadline t) as [dl|] eqn:Hdl.
  - destruct (overdue parse c dl) as [[]|] eqn:Hov;
      [destruct (decide (status_of t = Todo)) as [Hst|Hst]|..].
    + left. apply overdue_true in Hov as (dl_dt & ? & ?). by exists dl, dl_dt.
    + right. by intros (? & ? & _ & ? & _).
    + right. intros (dl' & dl_dt & Hdl' & _ & Hp & Hlt).
      assert (overdue parse c dl = Some true); [|congruence].
      apply overdue_true. exists dl_dt. split; [congruence|done].
    + right. intros (dl' & dl_dt & Hdl' & _ & Hp & Hlt).
      assert (overdue parse c dl = Some true); [|congruence].
      apply overdue_true. exists dl_dt. split; [congruence|done].
  - right. intros (? & ? & ? & _). congruence.
Qed.

Lemma normalized_set_missed c now t :
  normalized parse c (set_missed now t) = set_missed now t.
Proof.
  apply normalized_not_past_due. by intros (? & ? & _ & ? & _).
Qed.

Lemma normalized_idem c t :
  normalized parse c (normalized parse c t) = normalized parse c t.
Proof.
  destruct (past_due_dec c t) as [Hpd|Hpd].
  - rewrite (normalized_past_due c t Hpd). apply normalized_set_missed.
  - by rewrite !(normalized_not_past_due c t Hpd).
Qed.

(** C1. After a pass, a stored task has gone to 'missed' exactly when
    it had a deadline, was 'todo', and its deadline was an instant
    strictly before the current one; it is then the old row with status
    'missed' and the current time as updated_at.  A task that was
    'done' or 'missed', or has no deadline, is left as it was. *)
Theorem normalize_missed_exactly c conn k t :
  conn !! k = Some t →
  ∃ t',
    normalize_status_on_read parse c conn !! k = Some t' ∧
    (status_of t ≠ Missed ∧ status_of t' = Missed ↔ past_due parse c t) ∧
    (past_due parse c t → t' = set_missed (utcnow c) t) ∧
    (status_of t = Done ∨ status_of t = Missed ∨ deadline t = None →
     t' = t ∧ status_of t' = status_of t).
Proof.
  intros Hk. exists (normalized parse c t).
  split; [by rewrite normalize_lookup, Hk|].
  split; [|split].
  - split.
    + intros [Hbefore Hafter].
      destruct (past_due_dec c t) as [|Hn]; [done|].
      rewrite normalized_not_past_due in Hafter by done. done.
    + intros Hpd. rewrite normalized_past_due by done.
      destruct Hpd as (? & ? & _ & Hst & _). by rewrite Hst.
  - apply normalized_past_due.
  - intros Hcase. rewrite normalized_not_past_due; [done|].
    intros (dl & ? & Hdl & Hst & _).
    destruct Hcase as [H|[H|H]]; congruence.
Qed.

(** C7. Two passes at the same clock reading leave the table that one
    pass leaves: the same rows, with the same statuses and the same
    updated_at. *)
Theorem normalize_idempotent c conn :
  normalize_status_on_read parse c (normalize_status_on_read parse c conn)
    = normalize_status_on_read parse c conn.
Proof.
  rewrite !normalize_fmap. rewrite <- map_fmap_compose.
  apply map_fmap_ext. intros k t _. apply normalized_idem.
Qed.

(** C10. A 'todo' task whose stored deadline the parser refuses is
    passed over by a pass, and by any number of passes that follow, at
    whatever clock readings: the row stays as it was, with status 'todo'
    and its updated_at. *)
Theorem normalize_skips_unparseable (cs : list clock) conn k t dl :
  conn !! k = Some t →
  status_of t = Todo →
  deadline t = Some dl →
  (∀ d, parse d dl = None) →
  (∀ c, normalize_status_on_read parse c conn !! k = Some t) ∧
  normalize_runs parse cs conn !! k = Some t.
Proof.
  intros Hk Hst Hdl Hbad.
  assert (∀ c, normalized parse c t = t) as Hfix.
  { intros c. apply normalized_not_past_due.
    intros (dl' & dl_dt & Hdl' & _ & Hp & _).
    rewrite Hdl in Hdl'. injection Hdl' as <-. by rewrite Hbad in Hp. }
  split.
  - intros c. by rewrite normalize_lookup, Hk; simpl; rewrite Hfix.
  - revert conn Hk. unfold normalize_runs.
    induction cs as [|c cs IH]; intros conn Hk; [done|].
    simpl. apply IH. by rewrite normalize_lookup, Hk; simpl; rewrite Hfix.
Qed.

End Normalization.

(** C1 on the rent task in 2026. *)
Lemma normalize_missed_exactly_rent :
  ∃ t',
    normalize_status_on_read parse_sample clock_2026 rent_table !! 1 = Some t' ∧
    (status_of rent_task ≠ Missed ∧ status_of t' = Missed ↔
       past_due parse_sample clock_2026 rent_task) ∧
    (past_due parse_sample clock_2026 rent_task →
       t' = set_missed (utcnow clock_2026) rent_task) ∧
    (status_of rent_task = Done ∨ status_of rent_task = Missed ∨
       deadline rent_task = None →
     t' = rent_task ∧ status_of t' = status_of rent_task).
Proof.
  apply (normalize_missed_exactly parse_sample clock_2026 rent_table 1 rent_task).
  reflexivity.
Defined.

(** C10 on the task whose deadline reads "soon", over three passes. *)
Lemma normalize_skips_unparseable_odd :
  (∀ c, normalize_status_on_read parse_sample c odd_table !! 1 = Some odd_task) ∧
  normalize_runs parse_sample [clock_2026; clock_2026; clock_2026] odd_table !! 1
    = Some odd_task.
Proof.
  apply (normalize_skips_unparseable parse_sample
           [clock_2026; clock_2026; clock_2026] odd_table 1 odd_task (lit "soon"));
    [reflexivity | reflexivity | reflexivity | intros d; reflexivity].
Defined.

Example rent_task_past_due : past_due parse_sample clock_2026 rent_task.
Proof.
  exists iso_2020, (Datetime us_2020 (Some utc)).
  split_and!; [reflexivity..|]. vm_compute. reflexivity.
Qed.

(** ** The task commands *)

Section Commands.
Variable parse : datetime → str → option datetime.
Variable isoformat : datetime → str.
Implicit Types (c : clock) (conn : tasks) (t : task) (k tid : Z).

Lemma alter_lookup_cases (f : task → task) tid conn k t t' :
  conn !! k = Some t → alter f tid conn !! k = Some t' →
  t' = t ∨ (k = tid ∧ t' = f t).
Proof.
  intros Hk Ha. destruct (decide (tid = k)) as [->|Hne].
  - rewrite lookup_alter_eq, Hk in Ha. injection Ha as <-. by right.
  - rewrite lookup_alter_ne, Hk in Ha by done. injection Ha as <-. by left.
Qed.

Lemma complete_task_found c tid conn t :
  conn !! tid = Some t →
  complete_task c (Some tid) conn =
    (alter (set_done (utcnow c)) tid conn, [MarkedDone]).
Proof. intros Hk. unfold complete_task. by rewrite Hk. Qed.

(** C4, as amended. On a stored task in any status, 'todo', 'missed'
    or already 'done', Complete succeeds: it prints "Marked done.", and
    the row keeps its description, deadline and created_at, has status
    'done' and the current time as updated_at; the other rows are
    untouched. *)
Theorem complete_task_marks_done c tid conn t :
  conn !! tid = Some t →
  (complete_task c (Some tid) conn).2 = [MarkedDone] ∧
  (complete_task c (Some tid) conn).1 !! tid =
    Some (Task (description t) (deadline t) Done (created_at t) (utcnow c)) ∧
  (∀ k, k ≠ tid → (complete_task c (Some tid) conn).1 !! k = conn !! k).
Proof.
  intros Hk. rewrite (complete_task_found c tid conn t Hk). simpl.
  split; [done|]. split.
  - by rewrite lookup_alter_eq, Hk.
  - intros k Hne. by rewrite lookup_alter_ne.
Qed.

Lemma edit_task_found c1 c2 tid edit_desc edit_dl conn r :
  conn !! tid = Some r →
  (edit_task parse isoformat c1 c2 (Some tid) edit_desc edit_dl conn).1 =
    let conn1 :=
      match edit_desc with
      | Some new => alter (set_description new (utcnow c1)) tid conn
      | None => conn
      end in
    match edit_dl with
    | Some s =>
        alter (set_deadline (new_deadline parse isoformat c2 s r).1 (utcnow c2))
          tid conn1
    | None => conn1
    end.
Proof.
  intros Hk. unfold edit_task. rewrite Hk.
  destruct edit_desc, edit_dl; simpl; try done;
    by destruct (new_deadline parse isoformat c2 _ r).
Qed.

Lemma new_deadline_refused c s r :
  s ≠ [] → parse (localnow c) s = None →
  new_deadline parse isoformat c s r = (deadline r, true).
Proof.
  intros Hs Hp. unfold new_deadline. destruct s; [done|]. by rewrite Hp.
Qed.

(** C5, as amended. Whenever Complete, an edit of the description, an
    edit of the deadline or a normalization pass changes the status, the
    description or the deadline of a stored task, the task's updated_at
    is the current time afterwards.  An edit of the deadline whose date
    text is refused leaves the deadline of every task as it was. *)
Theorem updated_at_follows_change c (op : lifecycle_op) conn k t t' :
  conn !! k = Some t →
  run_op parse isoformat c op conn !! k = Some t' →
  (status_of t' ≠ status_of t ∨ description t' ≠ description t ∨
     deadline t' ≠ deadline t →
   updated_at t' = utcnow c) ∧
  (∀ tid s, op = EditDeadline tid s → s ≠ [] →
     parse (localnow c) s = None → deadline t' = deadline t).
Proof.
  intros Hk Hrun.
  assert (∀ f tid, (∀ x, updated_at (f x) = utcnow c) →
            alter f tid conn !! k = Some t' →
            status_of t' ≠ status_of t ∨ description t' ≠ description t ∨
              deadline t' ≠ deadline t →
            updated_at t' = utcnow c) as Halter.
  { intros f tid Hf Ha Hch.
    destruct (alter_lookup_cases f tid conn k t t' Hk Ha) as [->|[_ ->]].
    - by destruct Hch as [?|[?|?]].
    - apply Hf. }
  destruct op as [tid|tid new|tid s|]; unfold run_op in Hrun.
  - split; [|done]. destruct (conn !! tid) as [r|] eqn:Hr.
    + rewrite (complete_task_found c tid conn r Hr) in Hrun. simpl in Hrun.
      by eapply Halter; [|exact Hrun].
    + unfold complete_task in Hrun. rewrite Hr in Hrun. simpl in Hrun.
      rewrite Hk in Hrun.
      injection Hrun as <-. by intros [?|[?|?]].
  - split; [|done]. destruct (conn !! tid) as [r|] eqn:Hr.
    + rewrite (edit_task_found c c tid _ _ conn r Hr) in Hrun. simpl in Hrun.
      by eapply Halter; [|exact Hrun].
    + unfold edit_task in Hrun. rewrite Hr in Hrun. simpl in Hrun.
      rewrite Hk in Hrun.
      injection Hrun as <-. by intros [?|[?|?]].
  - destruct (conn !! tid) as [r|] eqn:Hr.
    + rewrite (edit_task_found c c tid _ _ conn r Hr) in Hrun. simpl in Hrun.
      split; [by eapply Halter; [|exact Hrun]|].
      intros tid' s' [= <- <-] Hs Hp.
      rewrite new_deadline_refused in Hrun by done. simpl in Hrun.
      destruct (alter_lookup_cases _ tid conn k t t' Hk Hrun) as [->|[-> ->]];
        [done|]. simpl. congruence.
    + unfold edit_task in Hrun. rewrite Hr in Hrun. simpl in Hrun.
      rewrite Hk in Hrun.
      injection Hrun as <-. split; [by intros [?|[?|?]]|done].
  - split; [|done]. rewrite normalize_lookup, Hk in Hrun.
    injection Hrun as <-.
    destruct (past_due_dec parse c t) as [Hpd|Hpd].
    + by rewrite normalized_past_due.
    + rewrite normalized_not_past_due by done. by intros [?|[?|?]].
Qed.

(** [view_task] shows the normalized row. *)
Lemma view_task_found c tid conn t :
  conn !! tid = Some t →
  view_task parse c (Some tid) conn =
    (normalize_status_on_read parse c conn, [TaskCard tid (normalized parse c t)]).
Proof.
  intros Hk. unfold view_task. by rewrite normalize_lookup, Hk.
Qed.

(** [complete_task] and [edit_task] work on the table as stored: a 'todo'
    task whose deadline has passed is completed from 'todo', and is
    still 'todo' after an edit, while [view_task] at the same clock
    reading shows it 'missed'. *)
Lemma commands_on_past_due c tid conn t :
  conn !! tid = Some t → past_due parse c t →
  (complete_task c (Some tid) conn).1 !! tid = Some (set_done (utcnow c) t) ∧
  (∀ edit_desc edit_dl, ∃ t',
      (edit_task parse isoformat c c (Some tid) edit_desc edit_dl conn).1 !! tid
        = Some t' ∧ status_of t' = Todo) ∧
  (view_task parse c (Some tid) conn).2 = [TaskCard tid (set_missed (utcnow c) t)].
Proof.
  intros Hk Hpd. split; [|split].
  - rewrite (complete_task_found c tid conn t Hk). simpl.
    by rewrite lookup_alter_eq, Hk.
  - intros edit_desc edit_dl.
    rewrite (edit_task_found c c tid _ _ conn t Hk).
    destruct Hpd as (? & ? & _ & Hst & _).
    destruct edit_desc, edit_dl; simpl;
      rewrite ?lookup_alter_eq, ?Hk; simpl; eauto.
  - rewrite (view_task_found c tid conn t Hk). simpl.
    by rewrite normalized_past_due.
Qed.

End Commands.

(** C4 on the rent task. *)
Lemma complete_task_marks_done_rent :
  (complete_task clock_2026 (Some 1) rent_table).2 = [MarkedDone] ∧
  (complete_task clock_2026 (Some 1) rent_table).1 !! 1 =
    Some (Task (description rent_task) (deadline rent_task) Done
            (created_at rent_task) (utcnow clock_2026)) ∧
  (∀ k, k ≠ 1 →
     (complete_task clock_2026 (Some 1) rent_table).1 !! k = rent_table !! k).
Proof.
  apply (complete_task_marks_done clock_2026 1 rent_table rent_task). reflexivity.
Defined.

(** Completing a task that is already 'done' is no error: the command
    prints "Marked done." and writes a new updated_at. *)
Lemma complete_task_again_not_refused :
  complete_task clock_2026 (Some 1) done_table =
    ({[ 1 := Task (lit "pay rent") (Some iso_2020) Done created_2019
                  (Datetime us_2026 None) ]}, [MarkedDone]) ∧
  ¬ (∀ c tid conn t,
        conn !! tid = Some t → status_of t = Done →
        (complete_task c (Some tid) conn).2 ≠ [MarkedDone] ∧
        (complete_task c (Some tid) conn).1 = conn).
Proof.
  split; [reflexivity|].
  intros H. destruct (H clock_2026 1 done_table rent_done) as [Hmsg _]; [done..|].
  by apply Hmsg.
Qed.

(** C5 on the rent task, for a refused date text. *)
Lemma updated_at_follows_change_rent :
  (status_of (set_deadline (Some iso_2020) (utcnow clock_2026) rent_task)
     ≠ status_of rent_task ∨
   description (set_deadline (Some iso_2020) (utcnow clock_2026) rent_task)
     ≠ description rent_task ∨
   deadline (set_deadline (Some iso_2020) (utcnow clock_2026) rent_task)
     ≠ deadline rent_task →
   updated_at (set_deadline (Some iso_2020) (utcnow clock_2026) rent_task)
     = utcnow clock_2026) ∧
  (∀ tid s, EditDeadline 1 (lit "soon") = EditDeadline tid s → s ≠ [] →
     parse_sample (localnow clock_2026) s = None →
     deadline (set_deadline (Some iso_2020) (utcnow clock_2026) rent_task)
       = deadline rent_task).
Proof.
  apply (updated_at_follows_change parse_sample isoformat_sample clock_2026
           (EditDeadline 1 (lit "soon")) rent_table 1 rent_task);
    reflexivity.
Defined.

(** Typing the description again as it is changes nothing but the
    updated_at. *)
Lemma same_description_new_updated_at :
  run_op parse_sample isoformat_sample clock_2026
      (EditDescription 1 (lit "pay rent")) rent_table !! 1 =
    Some (Task (lit "pay rent") (Some iso_2020) Todo created_2019
            (Datetime us_2026 None)) ∧
  ¬ (∀ parse isoformat c op conn k t t',
        conn !! k = Some t →
        run_op parse isoformat c op conn !! k = Some t' →
        (updated_at t' ≠ updated_at t ↔
         status_of t' ≠ status_of t ∨ description t' ≠ description t ∨
           deadline t' ≠ deadline t)).
Proof.
  split; [reflexivity|].
  intros H.
  destruct (H parse_sample isoformat_sample clock_2026
              (EditDescription 1 (lit "pay rent")) rent_table 1 rent_task
              (Task (lit "pay rent") (Some iso_2020) Todo created_2019
                 (Datetime us_2026 None))) as [Hto _]; [reflexivity..|].
  destruct Hto as [Hc|[Hc|Hc]]; [discriminate|by apply Hc..].
Qed.

(** A refused date text: the deadline stays, "Deadline updated." is
    printed after "Bad date. Skipping deadline edit.", and updated_at is
    written. *)
Example edit_task_bad_date :
  edit_task parse_sample isoformat_sample clock_2026 clock_2026 (Some 1)
      None (Some (lit "soon")) rent_table =
    ({[ 1 := Task (lit "pay rent") (Some iso_2020) Todo created_2019
                  (Datetime us_2026 None) ]},
     [CurrentDescription (lit "pay rent"); BadDate; DeadlineUpdated]).
Proof. reflexivity. Qed.

(** C6 on the rent task in 2026. The deadline of the 'todo' task has
    passed; "tasks edit 1" moving the deadline to 2030-01-01 works on the
    row as stored and leaves it 'todo', so that the listing that follows
    shows it 'todo'; "tasks done 1" completes it from 'todo'; "tasks view
    1" at the same clock reading shows it 'missed'. *)
Theorem edit_and_done_skip_normalization :
  past_due parse_sample clock_2026 rent_task ∧
  (edit_task parse_sample isoformat_sample clock_2026 clock_2026 (Some 1)
     None (Some (lit "2030-01-01")) rent_table).1 =
    {[ 1 := Task (lit "pay rent") (Some iso_2030) Todo created_2019
                 (Datetime us_2026 None) ]} ∧
  (list_tasks parse_sample clock_2026 false
     {[ 1 := Task (lit "pay rent") (Some iso_2030) Todo created_2019
                  (Datetime us_2026 None) ]}).2 =
    [TaskLine 1 (Task (lit "pay rent") (Some iso_2030) Todo created_2019
                   (Datetime us_2026 None))] ∧
  (complete_task clock_2026 (Some 1) rent_table).1 =
    {[ 1 := Task (lit "pay rent") (Some iso_2020) Done created_2019
                 (Datetime us_2026 None) ]} ∧
  (view_task parse_sample clock_2026 (Some 1) rent_table).2 =
    [TaskCard 1 (Task (lit "pay rent") (Some iso_2020) Missed created_2019
                   (Datetime us_2026 None))].
Proof.
  split; [apply rent_task_past_due|].
  split_and!; reflexivity.
Qed.

(** ** The LLM wrapper *)

Section GatewayFacts.
Context {exn client response : Type}.
Implicit Types (openai : option (@openai_module exn client response)).
Implicit Types (user_prompt model : str) (system_prompt : option str).

(** With an empty key or without the module no call is made. *)
Lemma llm_query_with_no_call key openai user_prompt system_prompt model :
  key = [] ∨ openai = None →
  llm_query_with key openai user_prompt system_prompt model = inr fallback.
Proof.
  intros [->| ->]; [|done]. unfold llm_query_with. by destruct openai.
Qed.

(** A call that raises inside the [try] gives the fallback text. *)
Lemma llm_query_with_failed_call key (api : @openai_module exn client response)
    cl user_prompt system_prompt model :
  OpenAI api key = inr cl →
  (∀ messages, ∃ e, create api cl model messages = inl e) →
  llm_query_with key (Some api) user_prompt system_prompt model = inr fallback.
Proof.
  intros Hcl Hfail. unfold llm_query_with.
  destruct (truthy key); simpl; [|done]. rewrite Hcl.
  match goal with |- context [create api cl model ?m] =>
    destruct (Hfail m) as [e ->] end.
  done.
Qed.

(** X18. Whatever the value of the key, the only exception that can
    leave [llm_query_with] is one raised by the constructor of the
    client, which is called before the [try]. *)
Lemma llm_query_with_raises key openai user_prompt system_prompt model e :
  llm_query_with key openai user_prompt system_prompt model = inl e →
  ∃ api, openai = Some api ∧ truthy key = true ∧ OpenAI api key = inl e.
Proof.
  unfold llm_query_with. destruct openai as [api|]; [|done].
  destruct (truthy key); simpl; [|done].
  destruct (OpenAI api key) as [e'|cl] eqn:Hcl.
  - intros [= ->]. by exists api.
  - destruct (create api cl model _) as [?|resp]; [done|].
    by destruct (content_strip api resp).
Qed.

(** C9. Whatever the prompt, the instruction and the model, whether
    the module [openai] was imported or not and whatever its calls would
    do, [llm_query] raises nothing and returns the fallback text. *)
Theorem llm_query_returns_fallback openai user_prompt system_prompt model :
  llm_query openai user_prompt system_prompt model = inr fallback.
Proof. apply llm_query_with_no_call. by left. Qed.

End GatewayFacts.

(** ** Storing a note and reading it again *)

Section Reopen.
Implicit Types (lines new : list str) (s x cur rest content text : str).

Lemma is_linebreak_LF : is_linebreak LF = true.
Proof. reflexivity. Qed.

Lemma clean_cons ch s :
  clean (ch :: s) = true ↔ is_linebreak ch = false ∧ clean s = true.
Proof.
  unfold clean; simpl. rewrite andb_true_iff, negb_true_iff. done.
Qed.

Lemma clean_app s1 s2 :
  clean (s1 ++ s2) = true ↔ clean s1 = true ∧ clean s2 = true.
Proof. unfold clean. rewrite forallb_app, andb_true_iff. done. Qed.

Lemma clean_rev s : clean s = true → clean (rev s) = true.
Proof.
  induction s as [|ch s IH]; [done|].
  intros H. apply clean_cons in H as [Hch Hs].
  cbn [rev]. apply clean_app. split; [by apply IH|]. by apply clean_cons.
Qed.

Lemma rev_app_not_nil {A} (l : list A) (y : A) (l' : list A) :
  rev l ++ y :: l' ≠ [].
Proof. destruct (rev l); discriminate. Qed.

(** Reading up to the separator that [join] wrote. *)
Lemma splitlines_from_clean_LF cur x rest :
  clean x = true →
  splitlines_from cur (x ++ LF :: rest) = (rev cur ++ x) :: splitlines_from [] rest.
Proof.
  revert cur. induction x as [|ch x IH]; intros cur Hx.
  - cbn [app splitlines_from]. rewrite is_linebreak_LF, app_nil_r.
    by destruct rest.
  - apply clean_cons in Hx as [Hch Hx].
    cbn [app splitlines_from]. rewrite Hch, IH by done.
    simpl. by rewrite <- app_assoc.
Qed.

(** Reading the last line. *)
Lemma splitlines_from_clean_end cur x :
  clean x = true →
  splitlines_from cur x = match rev cur ++ x with [] => [] | l => [l] end.
Proof.
  revert cur. induction x as [|ch x IH]; intros cur Hx.
  - rewrite app_nil_r. destruct cur as [|ch cur]; [done|].
    cbn [splitlines_from]. simpl.
    destruct (rev cur ++ [ch]) eqn:E; [|done].
    by destruct (rev cur).
  - apply clean_cons in Hx as [Hch Hx].
    cbn [splitlines_from]. rewrite Hch, IH by done.
    simpl. by rewrite <- app_assoc.
Qed.

Lemma reopen_clean_lines lines :
  Forall (λ x, clean x = true) lines → reopen lines = drop_empty_last lines.
Proof.
  unfold reopen, splitlines.
  induction lines as [|x lines IH]; intros Hall; [done|].
  apply Forall_cons in Hall as [Hx Hall].
  destruct lines as [|y lines].
  - cbn [join_lines]. rewrite splitlines_from_clean_end by done.
    by destruct x.
  - change (join_lines (x :: y :: lines)) with (x ++ LF :: join_lines (y :: lines)).
    rewrite splitlines_from_clean_LF by done. rewrite IH by done.
    unfold drop_empty_last. rewrite last_cons_cons.
    destruct (last (y :: lines)) as [[|? ?]|]; done.
Qed.

Lemma splitlines_from_all_clean (n : nat) : ∀ s cur,
  (length s ≤ n)%nat → clean cur = true →
  Forall (λ x, clean x = true) (splitlines_from cur s).
Proof.
  induction n as [|n IH]; intros s cur Hlen Hcur.
  - destruct s; [|simpl in Hlen; lia].
    destruct cur; simpl; [constructor|].
    apply Forall_cons. split; [|constructor].
    by apply (clean_rev (_ :: _)).
  - destruct s as [|ch s].
    { destruct cur; simpl; [constructor|].
      apply Forall_cons. split; [|constructor].
      by apply (clean_rev (_ :: _)). }
    simpl in Hlen. cbn [splitlines_from].
    destruct (is_linebreak ch) eqn:Hch.
    + apply Forall_cons. split; [by apply clean_rev|].
      destruct s as [|ch' s]; [by apply IH; [simpl; lia|]|].
      destruct (bool_decide (ch = CR) && bool_decide (ch' = LF));
        apply IH; simpl in *; done || lia.
    + apply IH; [lia|]. by apply clean_cons.
Qed.

(** The lines of a stored content hold no line boundary. *)
Lemma splitlines_all_clean content :
  Forall (λ x, clean x = true) (splitlines content).
Proof. by apply (splitlines_from_all_clean (length content)). Qed.

(** X1. For lines without line boundary, what was stored is read again
    line for line, except that one empty last line is lost. *)
Theorem store_then_read lines :
  Forall (λ x, clean x = true) lines →
  splitlines (join_lines lines) = drop_empty_last lines.
Proof. apply reopen_clean_lines. Qed.

(** X2. On the lines of any stored content, a "replace N" with a text
    without line boundary, a "delete N" and an "insert N" of lines
    without line boundary store line lists that the next edit reads
    again as they are, up to one empty last line. *)
Theorem partial_edit_then_read content new_lines :
  (∀ i text,
      clean text = true →
      replace_line (splitlines content) i text = Updated new_lines →
      reopen new_lines = drop_empty_last new_lines) ∧
  (∀ n,
      delete_line (splitlines content) n = Updated new_lines →
      reopen new_lines = drop_empty_last new_lines) ∧
  (∀ n new,
      Forall (λ x, clean x = true) new →
      insert_before (splitlines content) n new = Updated new_lines →
      reopen new_lines = drop_empty_last new_lines).
Proof.
  pose proof (splitlines_all_clean content) as Hall.
  split; [|split].
  - intros i text Htext. unfold replace_line.
    destruct (_ && _); intros [= <-]; apply reopen_clean_lines.
    + by apply Forall_insert.
    + apply Forall_app. split; [done|]. by apply Forall_cons.
  - intros n. unfold delete_line.
    destruct (_ && _); [|done]. intros [= <-]. apply reopen_clean_lines.
    by apply Forall_delete.
  - intros n new Hnew. unfold insert_before, slice_to, slice_from.
    intros [= <-]. apply reopen_clean_lines.
    rewrite !Forall_app. split_and!; [by apply Forall_take|done|by apply Forall_drop].
Qed.

End Reopen.

(** ** Delete, insert, append and llm-refactor *)

Section MoreEdits.
Implicit Types (lines new : list str) (n : Z) (s cur rest content : str).

Lemma in_range_spec lines n :
  (0 <=? n - 1) && (n - 1 <? Z.of_nat (length lines)) = true ↔
  1 ≤ n ∧ n ≤ Z.of_nat (length lines).
Proof. rewrite andb_true_iff, Z.leb_le, Z.ltb_lt. lia. Qed.

(** X3. "delete N" is refused, with "Index out of range.", exactly for
    N < 1 and N > len(lines); otherwise the stored list is one line
    shorter, with the lines before N in place and the lines after N moved
    up by one. *)
Theorem delete_line_removes_one lines n :
  (failed (delete_line lines n) = true ↔ n < 1 ∨ Z.of_nat (length lines) < n) ∧
  (∀ r, delete_line lines n = Rejected r → r = IndexOutOfRange) ∧
  (∀ new_lines,
      delete_line lines n = Updated new_lines →
      S (length new_lines) = length lines ∧
      ∀ j : nat,
        new_lines !! j =
          if decide (j < Z.to_nat (n - 1))%nat then lines !! j else lines !! S j).
Proof.
  unfold delete_line.
  destruct ((0 <=? n - 1) && (n - 1 <? Z.of_nat (length lines))) eqn:Hin; simpl.
  - apply in_range_spec in Hin. split; [split; [done|lia]|]. split; [done|].
    intros new_lines [= <-]. split.
    + rewrite length_delete; [lia|]. apply lookup_lt_is_Some. lia.
    + intros j. case_decide.
      * by apply list_lookup_delete_lt.
      * apply list_lookup_delete_ge. lia.
  - assert (¬ (1 ≤ n ∧ n ≤ Z.of_nat (length lines))) as Hout.
    { rewrite <- in_range_spec. by rewrite Hin. }
    split; [split; [lia|done]|]. split; [by intros r [= <-]|done].
Qed.

(** X4. "insert N" is never refused: N is brought into 1 .. len(lines)+1,
    the typed lines are put before that line, and the stored list has
    len(lines) + len(new) lines. *)
Theorem insert_before_clamped lines n new :
  let p := Z.to_nat (Z.min (Z.max 1 n) (Z.of_nat (length lines) + 1) - 1) in
  insert_before lines n new = Updated (take p lines ++ new ++ drop p lines) ∧
  length (take p lines ++ new ++ drop p lines) = (length lines + length new)%nat.
Proof.
  intros p. split.
  - unfold insert_before, slice_to, slice_from. do 2 f_equal.
    + f_equal. destruct (Z.ltb_spec (n - 1) 0).
      * destruct (Z.gtb_spec 0 (Z.of_nat (length lines))); [lia|].
        rewrite clip_inside by lia. lia.
      * destruct (Z.gtb_spec (n - 1) (Z.of_nat (length lines)));
          rewrite clip_inside by lia; lia.
    + do 2 f_equal. destruct (Z.ltb_spec (n - 1) 0).
      * destruct (Z.gtb_spec 0 (Z.of_nat (length lines))); [lia|].
        rewrite clip_inside by lia. lia.
      * destruct (Z.gtb_spec (n - 1) (Z.of_nat (length lines)));
          rewrite clip_inside by lia; lia.
  - rewrite !length_app, length_take, length_drop. lia.
Qed.

Lemma splitlines_from_before_LF (k : nat) : ∀ s cur rest,
  (length s ≤ k)%nat → s ≠ [] →
  (∀ ch, last s = Some ch → is_linebreak ch = false) →
  splitlines_from cur (s ++ LF :: rest) =
    splitlines_from cur s ++ splitlines_from [] rest.
Proof.
  induction k as [|k IH]; intros s cur rest Hlen Hne Hlast.
  { destruct s; [done|simpl in Hlen; lia]. }
  destruct s as [|ch s]; [done|]. simpl in Hlen.
  cbn [app splitlines_from].
  destruct (is_linebreak ch) eqn:Hch.
  - destruct s as [|ch' s].
    { rewrite (Hlast ch) in Hch; done. }
    cbn [app]. rewrite last_cons_cons in Hlast.
    destruct (bool_decide (ch = CR) && bool_decide (ch' = LF)) eqn:Hcrlf.
    + apply andb_true_iff in Hcrlf as [_ Hlf]. apply bool_decide_eq_true in Hlf.
      destruct s as [|ch'' s].
      { subst ch'. specialize (Hlast LF eq_refl). by rewrite is_linebreak_LF in Hlast. }
      rewrite last_cons_cons in Hlast.
      cbn [app]. f_equal. apply (IH (ch'' :: s)); [simpl in *; lia|done..].
    + cbn [app]. f_equal. apply (IH (ch' :: s)); [simpl in *; lia|done..].
  - destruct s as [|ch' s].
    + cbn [app splitlines_from]. rewrite is_linebreak_LF. by destruct rest.
    + rewrite last_cons_cons in Hlast. apply IH; [lia|done..].
Qed.

Lemma append_content_lines content new :
  (∀ ch, last content = Some ch → is_linebreak ch = false) →
  splitlines (append_content content new) = splitlines content ++ reopen new.
Proof.
  intros Hlast. unfold append_content, reopen, splitlines.
  destruct content as [|ch content]; [done|].
  destruct new as [|x new]; simpl truthy; cbn [andb].
  - cbn [join_lines]. by rewrite !app_nil_r.
  - change ((ch :: content) ++ [LF] ++ join_lines (x :: new))
      with ((ch :: content) ++ LF :: join_lines (x :: new)).
    by apply (splitlines_from_before_LF (length (ch :: content))).
Qed.

(** X5. "append" on a stored content that is empty or does not end in
    a line boundary: the content read again has the old lines, then what
    the typed lines are read as; no old line is merged with a new one
    and no empty line comes between them. *)
Theorem append_then_read content new :
  (∀ ch, last content = Some ch → is_linebreak ch = false) →
  splitlines (append_content content new) = splitlines content ++ reopen new.
Proof. apply append_content_lines. Qed.

End MoreEdits.

(** X5 for the content "a" and the typed line "b". *)
Lemma append_then_read_ab :
  splitlines (append_content (lit "a") [lit "b"]) = splitlines (lit "a") ++ reopen [lit "b"].
Proof.
  apply (append_then_read (lit "a") [lit "b"]).
  intros ch [= <-]. reflexivity.
Defined.

(** An empty last line is lost when the note is read again. *)
Example empty_last_line_lost :
  replace_line abc 3 [] = Updated [lit "a"; lit "b"; []] ∧
  reopen [lit "a"; lit "b"; []] = [lit "a"; lit "b"].
Proof. split; reflexivity. Qed.

(** X6 on the sample note: "replace -1". *)
Lemma replace_cmd_leading_dash_abc :
  replace_cmd int_sample abc (DASH :: lit "1") [] (lit "x") = Rejected BadRange.
Proof.
  apply (replace_cmd_leading_dash int_sample abc (lit "1") [] (lit "x")).
  reflexivity.
Defined.

Section RefactorFacts.
Context {exn client response : Type}.
Variable openai : option (@openai_module exn client response).
Implicit Types (lines : list str) (content : str).

Lemma llm_query_fallback user_prompt system_prompt model :
  llm_query openai user_prompt system_prompt model = inr fallback.
Proof. apply llm_query_with_no_call. by left. Qed.

Lemma splitlines_fallback : splitlines fallback = [fallback].
Proof. reflexivity. Qed.

(** X7. With the key as it is in the file, "llm-refactor" with scope
    "whole" replaces the content of the note, whatever it was, by the
    fallback text, and with scope "lines N-M" it stores the fallback text
    as one line between lines[:N-1] and lines[M:]. *)
Theorem refactor_writes_fallback :
  (∀ content, refactor_whole openai content = inr (ContentReplaced fallback)) ∧
  (∀ lines a b,
      refactor_range openai lines a b =
        inr (ContentReplaced
               (join_lines (slice_to lines (a - 1) ++ [fallback] ++ slice_from lines b)))).
Proof.
  split.
  - intros content. unfold refactor_whole. by rewrite llm_query_fallback.
  - intros lines a b. unfold refactor_range. rewrite llm_query_fallback.
    rewrite splitlines_fallback. simpl truthy. cbv iota.
    by replace (b - 1 + 1) with b by lia.
Qed.



End RefactorFacts.


(** ** What the task commands keep and show *)

Section TaskFacts.
Variable parse : datetime → str → option datetime.
Variable isoformat : datetime → str.
Implicit Types (c : clock) (conn : tasks) (t : task) (k tid : Z).

Lemma normalized_columns c t :
  description (normalized parse c t) = description t ∧
  deadline (normalized parse c t) = deadline t ∧
  created_at (normalized parse c t) = created_at t ∧
  (normalized parse c t = t ∨
   status_of t = Todo ∧ status_of (normalized parse c t) = Missed ∧
     updated_at (normalized parse c t) = utcnow c).
Proof.
  destruct (past_due_dec parse c t) as [Hpd|Hpd].
  - rewrite normalized_past_due by done.
    destruct Hpd as (? & ? & _ & Hst & _). split_and!; [done..|]. by right.
  - rewrite normalized_not_past_due by done. split_and!; [done..|]. by left.
Qed.

Lemma normalized_not_todo c t : status_of t ≠ Todo → normalized parse c t = t.
Proof.
  intros Hst. apply normalized_not_past_due. by intros (? & ? & _ & ? & _).
Qed.

Lemma normalized_never_past_due c t : ¬ past_due parse c (normalized parse c t).
Proof.
  destruct (past_due_dec parse c t) as [Hpd|Hpd].
  - rewrite normalized_past_due by done. by intros (? & ? & _ & ? & _).
  - by rewrite normalized_not_past_due.
Qed.

(** X9. A pass neither adds nor removes a task; of a stored task it
    keeps description, deadline and created_at, and either leaves the row
    as it is or takes it from 'todo' to 'missed' with the current time as
    updated_at. *)
Theorem normalize_keeps_columns c conn k :
  (conn !! k = None → normalize_status_on_read parse c conn !! k = None) ∧
  (∀ t, conn !! k = Some t →
     ∃ t', normalize_status_on_read parse c conn !! k = Some t' ∧
           description t' = description t ∧
           deadline t' = deadline t ∧
           created_at t' = created_at t ∧
           (t' = t ∨
            status_of t = Todo ∧ status_of t' = Missed ∧ updated_at t' = utcnow c)).
Proof.
  rewrite normalize_lookup. split.
  - by intros ->.
  - intros t ->. exists (normalized parse c t). split; [done|].
    apply normalized_columns.
Qed.

Lemma normalize_runs_lookup_fixed (cs : list clock) conn k t :
  conn !! k = Some t → (∀ c, normalized parse c t = t) →
  normalize_runs parse cs conn !! k = Some t.
Proof.
  intros Hk Hfix. revert conn Hk. unfold normalize_runs.
  induction cs as [|c cs IH]; intros conn Hk; [done|].
  simpl. apply IH. by rewrite normalize_lookup, Hk; simpl; rewrite Hfix.
Qed.

(** X10. A task that is 'done' or 'missed' is left as it is, updated_at
    included, by any number of passes at any clock readings. *)
Theorem closed_task_untouched (cs : list clock) conn k t :
  conn !! k = Some t → status_of t ≠ Todo →
  normalize_runs parse cs conn !! k = Some t.
Proof.
  intros Hk Hst. apply normalize_runs_lookup_fixed; [done|].
  intros c. by apply normalized_not_todo.
Qed.

Lemma list_tasks_table c show_all conn :
  (list_tasks parse c show_all conn).1 = normalize_status_on_read parse c conn.
Proof.
  unfold list_tasks.
  by destruct (if show_all then _ else _).
Qed.

Lemma elem_of_list_tasks c show_all conn k t :
  TaskLine k t ∈ (list_tasks parse c show_all conn).2 ↔
  normalize_status_on_read parse c conn !! k = Some t ∧
  (show_all = false → status_of t ≠ Done).
Proof.
  unfold list_tasks.
  set (conn' := normalize_status_on_read parse c conn).
  set (rows := if show_all then map_to_list conn' else _).
  assert (∀ r, r ∈ rows ↔
            conn' !! r.1 = Some r.2 ∧ (show_all = false → status_of r.2 ≠ Done))
    as Hrows.
  { intros [k' t']. unfold rows. destruct show_all; simpl.
    - rewrite elem_of_map_to_list. split; [by intros ?|by intros [? _]].
    - rewrite list_elem_of_In, filter_In, <- list_elem_of_In.
      rewrite elem_of_map_to_list, bool_decide_eq_true. simpl.
      split; [by intros [? ?]|intros [? H]; by split; [|apply H]]. }
  clearbody rows. destruct rows as [|r rows].
  - simpl. split.
    + intros H. apply list_elem_of_singleton in H. discriminate.
    + intros H. apply (Hrows (k, t)) in H. by apply elem_of_nil in H.
  - rewrite <- (Hrows (k, t)). cbn [snd].
    rewrite list_elem_of_fmap. split.
    + by intros ([k' t'] & [= -> ->] & ?).
    + intros ?. by exists (k, t).
Qed.

(** X11. "tasks list" prints a line for exactly the tasks of the
    normalized table that are not 'done', "tasks list all" for all of
    them, each with its normalized row; "No tasks." is printed exactly
    when there is no such task. *)
Theorem list_tasks_lines c show_all conn :
  (∀ k t,
      TaskLine k t ∈ (list_tasks parse c show_all conn).2 ↔
      ∃ t0, conn !! k = Some t0 ∧ t = normalized parse c t0 ∧
            (show_all = false → status_of t ≠ Done)) ∧
  ((list_tasks parse c show_all conn).2 = [NoTasks] ↔
   ∀ k t0, conn !! k = Some t0 →
           show_all = false ∧ status_of (normalized parse c t0) = Done).
Proof.
  assert (∀ k t,
      TaskLine k t ∈ (list_tasks parse c show_all conn).2 ↔
      ∃ t0, conn !! k = Some t0 ∧ t = normalized parse c t0 ∧
            (show_all = false → status_of t ≠ Done)) as Hlines.
  { intros k t. rewrite elem_of_list_tasks, normalize_lookup. split.
    - intros [Hk Hs]. destruct (conn !! k) as [t0|]; [|done].
      injection Hk as <-. by exists t0.
    - intros (t0 & -> & -> & Hs). done. }
  split; [done|]. split.
  - intros Hno k t0 Hk.
    destruct show_all eqn:Hall.
    + exfalso. assert (TaskLine k (normalized parse c t0) ∈ [NoTasks]) as Hin.
      { rewrite <- Hno. apply Hlines. by exists t0. }
      apply list_elem_of_singleton in Hin. discriminate.
    + split; [done|].
      destruct (decide (status_of (normalized parse c t0) = Done)) as [|Hnd]; [done|].
      exfalso. assert (TaskLine k (normalized parse c t0) ∈ [NoTasks]) as Hin.
      { rewrite <- Hno. apply Hlines. by exists t0. }
      apply list_elem_of_singleton in Hin. discriminate.
  - intros Hnone. unfold list_tasks.
    set (conn' := normalize_status_on_read parse c conn).
    destruct (if show_all then map_to_list conn' else _) as [|[k t] rows] eqn:Hrows;
      [done|exfalso].
    assert (TaskLine k t ∈ (list_tasks parse c show_all conn).2) as Hin.
    { unfold list_tasks. fold conn'. rewrite Hrows. simpl. apply elem_of_cons. by left. }
    apply Hlines in Hin as (t0 & Hk & -> & Hs).
    destruct (Hnone k t0 Hk) as [Hall Hd]. by apply Hs.
Qed.

(** X12. No task that "tasks list" or "tasks view" shows is 'todo' with
    a deadline before the clock reading of the command. *)
Theorem shown_tasks_not_past_due c conn :
  (∀ show_all k t,
      TaskLine k t ∈ (list_tasks parse c show_all conn).2 → ¬ past_due parse c t) ∧
  (∀ task_id k t,
      TaskCard k t ∈ (view_task parse c task_id conn).2 → ¬ past_due parse c t).
Proof.
  split.
  - intros show_all k t Hin. apply elem_of_list_tasks in Hin as [Hk _].
    rewrite normalize_lookup in Hk. destruct (conn !! k) as [t0|]; [|done].
    injection Hk as <-. apply normalized_never_past_due.
  - intros [tid|] k t; unfold view_task.
    + rewrite normalize_lookup. destruct (conn !! tid) as [t0|]; simpl.
      * intros Hin. apply list_elem_of_singleton in Hin. injection Hin as -> ->.
        apply normalized_never_past_due.
      * intros Hin. apply list_elem_of_singleton in Hin. discriminate.
    + intros Hin. apply list_elem_of_singleton in Hin. discriminate.
Qed.

End TaskFacts.

Section MoreTaskFacts.
Variable parse : datetime → str → option datetime.
Variable isoformat : datetime → str.
Implicit Types (c : clock) (conn : tasks) (t : task) (k tid : Z).


Lemma edit_task_lookup c1 c2 task_id edit_desc edit_dl conn k :
  ∃ f : task → task,
    (edit_task parse isoformat c1 c2 task_id edit_desc edit_dl conn).1 !! k
      = f <$> conn !! k ∧
    (∀ t, status_of (f t) = status_of t ∧ created_at (f t) = created_at t) ∧
    (task_id ≠ Some k → ∀ t, f t = t).
Proof.
  assert (∃ f : task → task, conn !! k = f <$> conn !! k ∧
            (∀ t, status_of (f t) = status_of t ∧ created_at (f t) = created_at t) ∧
            (task_id ≠ Some k → ∀ t, f t = t)) as Hid.
  { exists id. split; [by destruct (conn !! k)|done]. }
  destruct task_id as [tid|]; [|done].
  destruct (conn !! tid) as [r|] eqn:Hr.
  - rewrite (edit_task_found parse isoformat c1 c2 tid _ _ conn r Hr).
    destruct (decide (tid = k)) as [->|Hne].
    + destruct edit_desc as [new|], edit_dl as [s|]; simpl;
        rewrite ?lookup_alter_eq; [| | |done].
      * eexists (λ t, set_deadline _ _ (set_description _ _ t)).
        split; [by destruct (conn !! k)|]. split; [done|]. by intros [].
      * eexists (set_description _ _). split; [done|]. split; [done|]. by intros [].
      * eexists (set_deadline _ _). split; [done|]. split; [done|]. by intros [].
    + exists id. split; [|done].
      destruct edit_desc, edit_dl; simpl; rewrite ?lookup_alter_ne by done;
        by destruct (conn !! k).
  - unfold edit_task. by rewrite Hr.
Qed.

(** X14. "tasks edit" neither adds nor removes a task and changes no
    status and no created_at; it leaves every task but the one named
    as it is.  A task that was 'missed' or 'done' before the edit is
    left as the edit wrote it by every later pass: moving the deadline of
    a 'missed' task to a later date does not make it 'todo' again. *)
Theorem edit_task_keeps_status c1 c2 task_id edit_desc edit_dl conn k :
  (conn !! k = None →
   (edit_task parse isoformat c1 c2 task_id edit_desc edit_dl conn).1 !! k = None) ∧
  (∀ t, conn !! k = Some t →
     ∃ t',
       (edit_task parse isoformat c1 c2 task_id edit_desc edit_dl conn).1 !! k
         = Some t' ∧
       status_of t' = status_of t ∧
       created_at t' = created_at t ∧
       (task_id ≠ Some k → t' = t) ∧
       (status_of t ≠ Todo →
        ∀ c, normalize_status_on_read parse c
               (edit_task parse isoformat c1 c2 task_id edit_desc edit_dl conn).1 !! k
             = Some t')).
Proof.
  destruct (edit_task_lookup c1 c2 task_id edit_desc edit_dl conn k)
    as (f & Hf & Hcols & Hother).
  split.
  - intros Hk. by rewrite Hf, Hk.
  - intros t Hk. exists (f t). rewrite Hf, Hk.
    destruct (Hcols t) as [Hst Hcr]. split_and!; [done..| |].
    + intros Hne. by apply Hother.
    + intros Hclosed c. rewrite normalize_lookup, Hf, Hk. simpl. f_equal.
      apply normalized_not_todo. by rewrite Hst.
Qed.

(** X15. Completing a task gives the same row whether or not a pass ran
    just before, at whatever clock reading: a 'todo' task whose deadline
    has passed ends 'done' with the time of the completion either way. *)
Theorem complete_task_after_normalize c c' tid conn :
  (complete_task c (Some tid) (normalize_status_on_read parse c' conn)).1 !! tid
    = (complete_task c (Some tid) conn).1 !! tid ∧
  (complete_task c (Some tid) (normalize_status_on_read parse c' conn)).2
    = (complete_task c (Some tid) conn).2.
Proof.
  unfold complete_task. rewrite normalize_lookup.
  destruct (conn !! tid) as [t|] eqn:Hk; simpl.
  - rewrite !lookup_alter_eq, normalize_lookup, Hk. simpl.
    destruct (normalized_columns parse c' t) as (Hd & Hdl & Hcr & _).
    unfold set_done. by rewrite Hd, Hdl, Hcr.
  - by rewrite normalize_lookup, Hk.
Qed.

Lemma aware_default (dt : datetime) :
  match tzinfo dt with
  | None => replace_tzinfo dt utc
  | Some _ => dt
  end = Datetime (wall dt) (Some (default utc (tzinfo dt))).
Proof. by destruct dt as [w [o|]]. Qed.

Lemma read_deadline_Some attempts text :
  read_deadline parse isoformat attempts = Some text →
  ∃ c s dt, (c, s) ∈ attempts ∧ parse (localnow c) s = Some dt ∧
            text = isoformat (Datetime (wall dt) (Some (default utc (tzinfo dt)))).
Proof.
  induction attempts as [|[c s] attempts IH]; [done|]. simpl.
  destruct (parse (localnow c) s) as [dt|] eqn:Hp.
  - intros [= <-]. exists c, s, dt. rewrite aware_default.
    split; [apply elem_of_cons; by left|done].
  - intros H. destruct (IH H) as (c' & s' & dt & Hin & ? & ?).
    exists c', s', dt. split; [apply elem_of_cons; by right|done].
Qed.

Lemma read_deadline_None attempts :
  read_deadline parse isoformat attempts = None →
  ∀ c s, (c, s) ∈ attempts → parse (localnow c) s = None.
Proof.
  induction attempts as [|[c s] attempts IH]; intros H c' s' Hin.
  { by apply elem_of_nil in Hin. }
  simpl in H. destruct (parse (localnow c) s) as [dt|] eqn:Hp; [done|].
  apply elem_of_cons in Hin as [[= -> ->]|Hin]; [done|]. by apply IH.
Qed.

(** X16. [create_task] is cancelled exactly for an empty description.
    Otherwise the new row is 'todo' with created_at = updated_at = now;
    its deadline is NULL when none was asked for, and else the ISO text
    of a value that the parser read from one of the answers, taken as UTC
    when it names no zone; the other rows are as before.  The command
    ends without a row only when every answer was refused. *)
Theorem create_task_row desc wants attempts c new_id conn :
  match create_task parse isoformat desc wants attempts c new_id conn with
  | CreateCancelled => desc = []
  | CreateEOF =>
      desc ≠ [] ∧ wants = true ∧
      ∀ c' s, (c', s) ∈ attempts → parse (localnow c') s = None
  | TaskCreated conn' =>
      desc ≠ [] ∧
      (∃ dl,
          conn' !! new_id = Some (Task desc dl Todo (utcnow c) (utcnow c)) ∧
          match dl with
          | None => wants = false
          | Some text =>
              wants = true ∧
              ∃ c' s dt, (c', s) ∈ attempts ∧ parse (localnow c') s = Some dt ∧
                text = isoformat (Datetime (wall dt) (Some (default utc (tzinfo dt))))
          end) ∧
      (∀ k, k ≠ new_id → conn' !! k = conn !! k)
  end.
Proof.
  unfold create_task. destruct desc as [|ch desc]; [done|]. simpl.
  destruct wants.
  - destruct (read_deadline parse isoformat attempts) as [text|] eqn:Hrd.
    + split; [done|]. split.
      * exists (Some text). rewrite lookup_insert_eq. split; [done|].
        split; [done|]. by apply read_deadline_Some.
      * intros k Hne. by rewrite lookup_insert_ne.
    + split; [done|]. split; [done|]. by apply read_deadline_None.
  - split; [done|]. split.
    + exists None. by rewrite lookup_insert_eq.
    + intros k Hne. by rewrite lookup_insert_ne.
Qed.

(** X17. A task created with a deadline and listed later: when the
    stored text is read again as a date, the listing shows the task
    'missed' if that instant is before the clock reading of the listing
    and 'todo' if not. *)
Theorem created_task_listed desc attempts c new_id conn text c' dl_dt :
  desc ≠ [] →
  read_deadline parse isoformat attempts = Some text →
  parse (localnow c') text = Some dl_dt →
  ∃ conn' t,
    create_task parse isoformat desc true attempts c new_id conn = TaskCreated conn' ∧
    (list_tasks parse c' false conn').1 !! new_id = Some t ∧
    TaskLine new_id t ∈ (list_tasks parse c' false conn').2 ∧
    status_of t =
      (if decide (deadline_instant dl_dt < wall (utcnow c')) then Missed else Todo).
Proof.
  intros Hdesc Hrd Hp.
  set (row := Task desc (Some text) Todo (utcnow c) (utcnow c)).
  exists (<[new_id := row]> conn), (normalized parse c' row).
  assert (status_of (normalized parse c' row) =
            (if decide (deadline_instant dl_dt < wall (utcnow c')) then Missed else Todo))
    as Hst.
  { case_decide as Hlt.
    - rewrite normalized_past_due; [done|]. by exists text, dl_dt.
    - rewrite normalized_not_past_due; [done|].
      intros (text' & dt' & [= <-] & _ & Hp' & Hlt').
      rewrite Hp in Hp'. injection Hp' as <-. done. }
  split_and!.
  - unfold create_task. destruct desc; [done|]. simpl. by rewrite Hrd.
  - by rewrite list_tasks_table, normalize_lookup, lookup_insert_eq.
  - apply elem_of_list_tasks. split.
    + by rewrite normalize_lookup, lookup_insert_eq.
    + intros _. rewrite Hst. by case_decide.
  - done.
Qed.

End MoreTaskFacts.

(** X10 on the completed rent task, over two passes. *)
Lemma closed_task_untouched_rent :
  normalize_runs parse_sample [clock_2026; clock_2026] done_table !! 1 = Some rent_done.
Proof.
  apply (closed_task_untouched parse_sample [clock_2026; clock_2026] done_table 1
           rent_done); [reflexivity|discriminate].
Defined.


(** X17 for a task created in 2026 with the answers "soon" and then
    2020-01-01, and listed at once. *)
Lemma created_task_listed_rent :
  ∃ conn' t,
    create_task parse_sample isoformat_sample (lit "pay rent") true two_attempts
        clock_2026 1 ∅ = TaskCreated conn' ∧
    (list_tasks parse_sample clock_2026 false conn').1 !! 1 = Some t ∧
    TaskLine 1 t ∈ (list_tasks parse_sample clock_2026 false conn').2 ∧
    status_of t =
      (if decide (deadline_instant (Datetime us_2020 (Some utc))
                    < wall (utcnow clock_2026))
       then Missed else Todo).
Proof.
  apply (created_task_listed parse_sample isoformat_sample (lit "pay rent")
           two_attempts clock_2026 1 ∅ iso_2020 clock_2026
           (Datetime us_2020 (Some utc)));
    [discriminate|reflexivity|reflexivity].
Defined.

(** X18 for a key and a module whose constructor raises. *)
Lemma llm_query_with_raises_sample :
  ∃ api, Some raising_openai = Some api ∧ truthy (lit "sk") = true ∧
         OpenAI api (lit "sk") = inl tt.
Proof.
  apply (llm_query_with_raises (lit "sk") (Some raising_openai) (lit "hi") None
           DEFAULT_MODEL tt).
  reflexivity.
Defined.

(** ** Typed blocks and new notes *)

Section Blocks.
Implicit Types (s line : str) (inputs lines rest new : list str).

Lemma isspace_linebreak ch : is_linebreak ch = true → isspace ch = true.
Proof.
  unfold is_linebreak. rewrite bool_decide_eq_true, !elem_of_cons, elem_of_nil.
  intros H. repeat (destruct H as [->|H]; [reflexivity|]). done.
Qed.

Lemma head_lstrip s ch : head (lstrip s) = Some ch → isspace ch = false.
Proof.
  induction s as [|ch' s IH]; [done|]. simpl.
  destruct (isspace ch') eqn:Hsp; [done|]. simpl. by intros [= <-].
Qed.

Lemma last_rev {A} (l : list A) : last (rev l) = head l.
Proof. destruct l as [|x l]; [done|]. simpl. by rewrite last_snoc. Qed.

Lemma last_strip s ch : last (strip s) = Some ch → isspace ch = false.
Proof. unfold strip, rstrip. rewrite last_rev. apply head_lstrip. Qed.

Lemma last_strip_not_linebreak s ch :
  last (strip s) = Some ch → is_linebreak ch = false.
Proof.
  intros Hlast. apply last_strip in Hlast.
  destruct (is_linebreak ch) eqn:Hlb; [|done].
  apply isspace_linebreak in Hlb. congruence.
Qed.

(** X19. The block typed after a prompt ends at the first line that is
    END once stripped; the lines before it are taken as typed, none of
    them is END once stripped, and the END line is consumed.  If no such
    line comes, the loop ends in EOFError. *)
Theorem read_until_END_block inputs :
  (∀ lines rest,
      read_until_END inputs = Some (lines, rest) ↔
      ∃ line, inputs = lines ++ line :: rest ∧ strip line = END ∧
              Forall (λ l, strip l ≠ END) lines) ∧
  (read_until_END inputs = None ↔ Forall (λ l, strip l ≠ END) inputs).
Proof.
  induction inputs as [|line inputs [IHs IHn]].
  - split.
    + intros lines rest. split; [done|].
      intros (line & Heq & _). by destruct lines.
    + split; [constructor|done].
  - cbn [read_until_END]. case_bool_decide as Hend.
    + split.
      * intros lines rest. split.
        -- intros [= <- <-]. exists line. split_and!; [done..|constructor].
        -- intros (line' & Heq & Hend' & Hall).
           destruct lines as [|l lines].
           ++ simpl in Heq. by injection Heq as <- <-.
           ++ simpl in Heq. injection Heq as <- _.
              apply Forall_cons in Hall as [Hl _]. done.
      * split; [done|]. intros Hall. apply Forall_cons in Hall as [Hl _]. done.
    + split.
      * intros lines rest. split.
        -- destruct (read_until_END inputs) as [[lines' rest']|] eqn:Hrd; [|done].
           intros [= <- <-].
           destruct (proj1 (IHs lines' rest') eq_refl) as (line' & -> & ? & ?).
           exists line'. split_and!; [done..|]. by apply Forall_cons.
        -- intros (line' & Heq & Hend' & Hall).
           destruct lines as [|l lines].
           { simpl in Heq. injection Heq as <- _. done. }
           simpl in Heq. injection Heq as <- ->.
           apply Forall_cons in Hall as [_ Hall].
           assert (read_until_END (lines ++ line' :: rest) = Some (lines, rest)) as ->; [|done].
           apply IHs. by exists line'.
      * destruct (read_until_END inputs) as [[lines' rest']|] eqn:Hrd.
        -- split; [done|]. intros Hall. apply Forall_cons in Hall as [_ Hall].
           apply IHn in Hall. done.
        -- split; [|done]. intros _. apply Forall_cons. split; [done|]. by apply IHn.
Qed.

(** X20. The content that [create_note] and the whole edit store is
    stripped: it does not end in a white-space character, so an "append"
    to it is read again as its lines followed by the appended ones. *)
Theorem stored_content_appendable inputs c id conn conn' r :
  (create_note inputs c id conn = Some conn' ∨
   (is_Some (conn !! id) ∧ edit_note_whole inputs c id conn = Some conn')) →
  conn' !! id = Some r →
  (∀ ch, last (note_content r) = Some ch → isspace ch = false) ∧
  note_updated_at r = utcnow c ∧
  ∀ new,
    splitlines (append_content (note_content r) new)
      = splitlines (note_content r) ++ reopen new.
Proof.
  intros Hcmd Hr.
  assert (∃ s, note_content r = strip s ∧ note_updated_at r = utcnow c)
    as (s & Hs & Hup).
  { destruct Hcmd as [Hc|[[r0 Hr0] He]].
    - unfold create_note in Hc. destruct inputs as [|first inputs]; [done|].
      destruct (read_until_END inputs) as [[lines rest]|]; [|done].
      injection Hc as <-. rewrite lookup_insert_eq in Hr. injection Hr as <-.
      by eexists.
    - unfold edit_note_whole in He.
      destruct (read_until_END inputs) as [[lines rest]|]; [|done].
      injection He as <-. rewrite lookup_alter_eq, Hr0 in Hr. injection Hr as <-.
      by eexists. }
  split_and!; [|done|].
  - intros ch. rewrite Hs. apply last_strip.
  - intros new. apply append_content_lines.
    intros ch. rewrite Hs. apply last_strip_not_linebreak.
Qed.

End Blocks.

Section DeleteTask.
Variable parse : datetime → str → option datetime.
Implicit Types (c : clock) (conn : tasks) (t : task) (k tid : Z).

(** X21. "tasks delete" of a stored task removes that row and no
    other; after it, "tasks view" of the id answers "Not found." and no
    listing has a line for it. *)
Theorem delete_task_removes tid conn t :
  conn !! tid = Some t →
  (delete_task (Some tid) conn).2 = [TaskDeleted] ∧
  (delete_task (Some tid) conn).1 !! tid = None ∧
  (∀ k, k ≠ tid → (delete_task (Some tid) conn).1 !! k = conn !! k) ∧
  (∀ c, (view_task parse c (Some tid) (delete_task (Some tid) conn).1).2
          = [NotFound]) ∧
  (∀ c show_all t',
      TaskLine tid t' ∉ (list_tasks parse c show_all (delete_task (Some tid) conn).1).2).
Proof.
  intros Hk. unfold delete_task. rewrite Hk. simpl.
  split_and!; [done|by apply lookup_delete_eq| | |].
  - intros k Hne. by apply lookup_delete_ne.
  - intros c. unfold view_task. by rewrite normalize_lookup, lookup_delete_eq.
  - intros c show_all t' Hin. apply elem_of_list_tasks in Hin as [Hin _].
    by rewrite normalize_lookup, lookup_delete_eq in Hin.
Qed.

End DeleteTask.

(** X1 on the sample note. *)
Lemma store_then_read_abc : splitlines (join_lines abc) = drop_empty_last abc.
Proof.
  apply (store_then_read abc). repeat constructor.
Defined.

(** X20 on a note typed at the console. *)
Lemma stored_content_appendable_shopping :
  (∀ ch, last (note_content shopping_note) = Some ch → isspace ch = false) ∧
  note_updated_at shopping_note = utcnow clock_2026 ∧
  ∀ new,
    splitlines (append_content (note_content shopping_note) new)
      = splitlines (note_content shopping_note) ++ reopen new.
Proof.
  apply (stored_content_appendable shopping_inputs clock_2026 1 ∅
           {[ 1 := shopping_note ]} shopping_note).
  - left. reflexivity.
  - reflexivity.
Defined.

(** X21 on the table of the rent task. *)
Lemma delete_task_removes_rent :
  (delete_task (Some 1) rent_table).2 = [TaskDeleted] ∧
  (delete_task (Some 1) rent_table).1 !! 1 = None ∧
  (∀ k, k ≠ 1 → (delete_task (Some 1) rent_table).1 !! k = rent_table !! k) ∧
  (∀ c, (view_task parse_sample c (Some 1) (delete_task (Some 1) rent_table).1).2
          = [NotFound]) ∧
  (∀ c show_all t',
      TaskLine 1 t' ∉
        (list_tasks parse_sample c show_all (delete_task (Some 1) rent_table).1).2).
Proof.
  apply (delete_task_removes parse_sample 1 rent_table rent_task). reflexivity.
Defined.

Section EditDeadline.
Variable parse : datetime → str → option datetime.
Variable isoformat : datetime → str.
Implicit Types (c : clock) (conn : tasks) (t : task) (k tid : Z).

Lemma edit_task_deadline_row c1 c2 tid edit_desc s conn t :
  conn !! tid = Some t →
  ∃ t',
    (edit_task parse isoformat c1 c2 (Some tid) edit_desc (Some s) conn).1 !! tid
      = Some t' ∧
    deadline t' = (new_deadline parse isoformat c2 s t).1 ∧
    status_of t' = status_of t.
Proof.
  intros Hk. rewrite (edit_task_found parse isoformat c1 c2 tid _ _ conn t Hk).
  destruct edit_desc as [new|]; simpl; rewrite !lookup_alter_eq, Hk; simpl;
    by eexists.
Qed.

Lemma new_deadline_accepted c (s : str) r dt :
  s ≠ [] → parse (localnow c) s = Some dt →
  new_deadline parse isoformat c s r =
    (Some (isoformat (Datetime (wall dt) (Some (default utc (tzinfo dt))))), false).
Proof.
  intros Hs Hp. unfold new_deadline. destruct s; [done|].
  rewrite Hp. by rewrite aware_default.
Qed.

(** X22. An edit that empties the deadline of a 'todo' task stores
    NULL, and the task is then left 'todo' by every pass, at whatever
    clock reading. *)
Theorem deadline_removed_never_missed c1 c2 tid edit_desc conn t (cs : list clock) :
  conn !! tid = Some t → status_of t = Todo →
  ∃ t',
    (edit_task parse isoformat c1 c2 (Some tid) edit_desc (Some []) conn).1 !! tid
      = Some t' ∧
    deadline t' = None ∧ status_of t' = Todo ∧
    normalize_runs parse cs
      (edit_task parse isoformat c1 c2 (Some tid) edit_desc (Some []) conn).1 !! tid
      = Some t'.
Proof.
  intros Hk Hst.
  destruct (edit_task_deadline_row c1 c2 tid edit_desc [] conn t Hk)
    as (t' & Hk' & Hdl & Hst').
  exists t'. simpl in Hdl. split_and!; [done|done|congruence|].
  apply normalize_runs_lookup_fixed; [done|].
  intros c. unfold normalized. by rewrite Hdl.
Qed.

(** X23. An edit that gives a 'todo' task a date the parser accepts
    stores its ISO text; when that text is read again as a date, the next
    listing shows the task 'missed' if the instant is before the clock
    reading of the listing and 'todo' if not. *)
Theorem edited_deadline_listed c1 c2 tid edit_desc (s : str) dt conn t c' dl_dt :
  conn !! tid = Some t → status_of t = Todo →
  s ≠ [] → parse (localnow c2) s = Some dt →
  parse (localnow c')
    (isoformat (Datetime (wall dt) (Some (default utc (tzinfo dt))))) = Some dl_dt →
  ∃ t',
    (list_tasks parse c' false
       (edit_task parse isoformat c1 c2 (Some tid) edit_desc (Some s) conn).1).1 !! tid
      = Some t' ∧
    deadline t' = Some (isoformat (Datetime (wall dt) (Some (default utc (tzinfo dt))))) ∧
    status_of t' =
      (if decide (deadline_instant dl_dt < wall (utcnow c')) then Missed else Todo).
Proof.
  intros Hk Hst Hs Hp Hp'.
  destruct (edit_task_deadline_row c1 c2 tid edit_desc s conn t Hk)
    as (t1 & Hk1 & Hdl1 & Hst1).
  rewrite (new_deadline_accepted c2 s t dt Hs Hp) in Hdl1. simpl in Hdl1.
  exists (normalized parse c' t1).
  rewrite list_tasks_table, normalize_lookup, Hk1. split; [done|].
  destruct (normalized_columns parse c' t1) as (_ & Hdl & _). split; [congruence|].
  case_decide as Hlt.
  - rewrite normalized_past_due; [done|].
    eexists _, dl_dt. split_and!; [done|congruence|done..].
  - rewrite normalized_not_past_due; [congruence|].
    intros (text' & dt' & Hdl' & _ & Hp'' & Hlt').
    rewrite Hdl1 in Hdl'. injection Hdl' as <-.
    rewrite Hp' in Hp''. injection Hp'' as <-. done.
Qed.

End EditDeadline.

(** X22 on the rent task. *)
Lemma deadline_removed_never_missed_rent :
  ∃ t',
    (edit_task parse_sample isoformat_sample clock_2026 clock_2026 (Some 1) None
       (Some []) rent_table).1 !! 1 = Some t' ∧
    deadline t' = None ∧ status_of t' = Todo ∧
    normalize_runs parse_sample [clock_2026; clock_2026]
      (edit_task parse_sample isoformat_sample clock_2026 clock_2026 (Some 1) None
         (Some []) rent_table).1 !! 1 = Some t'.
Proof.
  apply (deadline_removed_never_missed parse_sample isoformat_sample clock_2026
           clock_2026 1 None rent_table rent_task [clock_2026; clock_2026]);
    reflexivity.
Defined.

(** X23 on the rent task, its deadline moved to 2030-01-01. *)
Lemma edited_deadline_listed_rent :
  ∃ t',
    (list_tasks parse_sample clock_2026 false
       (edit_task parse_sample isoformat_sample clock_2026 clock_2026 (Some 1) None
          (Some (lit "2030-01-01")) rent_table).1).1 !! 1 = Some t' ∧
    deadline t' =
      Some (isoformat_sample
              (Datetime (wall (Datetime us_2030 None))
                 (Some (default utc (tzinfo (Datetime us_2030 None)))))) ∧
    status_of t' =
      (if decide (deadline_instant (Datetime us_2030 (Some utc))
                    < wall (utcnow clock_2026))
       then Missed else Todo).
Proof.
  apply (edited_deadline_listed parse_sample isoformat_sample clock_2026 clock_2026
           1 None (lit "2030-01-01") (Datetime us_2030 None) rent_table rent_task
           clock_2026 (Datetime us_2030 (Some utc)));
    (reflexivity || discriminate).
Defined.
